(** * capture_pdf: screen capture, page navigation and PDF compilation

    A shallow embedding of the Python package [capture_pdf]
    (capturer.py, navigator.py, pdf_compiler.py, cli.py) together with
    the properties its specification states about it.

    The package is glue around three external collaborators: the Quartz
    screen-capture and event-synthesis calls, the Pillow image library and
    the process environment (terminal, file system, clock).  The external
    calls are modelled as follows:
    - what the operating system and the libraries' own limits answer (a
      captured frame or nothing, an event or nothing, whether a path can
      be written, whether the system sleeps a length, whether an image
      can be allocated, what a resampling kernel computes) is a field of
      the class [Platform];
    - every external call the program makes is appended to the list
      [calls] of the [World], in program order, so that the order and the
      number of calls can be stated;
    - Python exceptions are the [Raise] outcome of an error/state monad. *)

From Stdlib Require Import ZArith QArith List Permutation Sorted.
From stdpp Require Import gmap strings list fin_maps pretty sorting.

Set Warnings "-clear-no-such-hyp".

Local Open Scope Z_scope.

(** ** Pillow images *)

(** The colour modes that are modelled: the ones a decoded PNG file or a
    converted screen frame can have. *)
Inductive Mode := Mode_1 | Mode_L | Mode_LA | Mode_P | Mode_RGB | Mode_RGBA.

#[global] Instance Mode_eq_dec : EqDecision Mode.
Proof. solve_decision. Defined.

(** A pixel is the tuple of its band values, as [getpixel] returns it. *)
Abbreviation pixel := (list Z).

(** A single-frame image.  [data] is row-major, [palette] is only read in
    mode P, [fp] is the file handle of an image returned by [Image.open].
    A value of this type is an image in use: the package never touches an
    image after it has closed it. *)
Record Image := {
  mode : Mode;
  size : Z * Z;
  data : list pixel;
  palette : list pixel;
  fp : option nat
}.

Definition width (im : Image) : Z := fst (size im).
Definition height (im : Image) : Z := snd (size im).

(** [Image.getbands]: the band names of a mode, and whether one of them
    is an alpha band. *)
Definition getbands (m : Mode) : list string :=
  match m with
  | Mode_1 => ["1"]
  | Mode_L => ["L"]
  | Mode_LA => ["L"; "A"]
  | Mode_P => ["P"]
  | Mode_RGB => ["R"; "G"; "B"]
  | Mode_RGBA => ["R"; "G"; "B"; "A"]
  end%string.

Definition has_alpha_channel (m : Mode) : bool :=
  bool_decide ("A"%string ∈ getbands m).

(** [Image.new(mode, size, color)]. *)
Definition Image_new (m : Mode) (sz : Z * Z) (color : pixel) : Image :=
  {| mode := m; size := sz;
     data := replicate (Z.to_nat (fst sz * snd sz)) color;
     palette := []; fp := None |}.

(** [im.split()]: one mode-L image per band. *)
Definition Image_split (im : Image) : list Image :=
  map (fun b : nat =>
         {| mode := Mode_L; size := size im;
            data := map (fun p : pixel => [nth b p 0]) (data im);
            palette := []; fp := None |})
      (seq 0 (length (getbands (mode im)))).

(** Pillow's 8-bit blend (ImagingUtils.h):
    [BLEND8(mask, in1, in2) = DIV255(in1 * (255 - mask) + in2 * mask)],
    [DIV255(a) = (((a + 128) >> 8) + (a + 128)) >> 8]. *)
Definition SHIFTFORDIV255 (a : Z) : Z := Z.shiftr (Z.shiftr a 8 + a) 8.
Definition DIV255 (a : Z) : Z := SHIFTFORDIV255 (a + 128).
Definition BLEND8 (mask in1 in2 : Z) : Z :=
  DIV255 (in1 * (255 - mask) + in2 * mask).

(** Paste.c, [paste_mask_L]: every stored band of the destination pixel is
    blended with the same band of the source pixel; an RGB destination has
    three bands, so the fourth band of an RGBA source is not read. *)
Fixpoint paste_mask_L (out inp mask : list pixel) : list pixel :=
  match out, inp, mask with
  | o :: out', i :: inp', m :: mask' =>
      zip_with (BLEND8 (nth 0 m 0)) o i :: paste_mask_L out' inp' mask'
  | _, _, _ => out
  end.

(** [self.paste(im, mask=mask)] with the default box (0, 0): [im] and
    [mask] cover [self] from its upper left corner.  The method mutates
    [self]; the model returns the new value of [self]. *)
Definition Image_paste (self im mask : Image) : Image :=
  {| mode := mode self; size := size self;
     data := paste_mask_L (data self) (data im) (data mask);
     palette := palette self; fp := fp self |}.

(** Convert.c, the conversions into RGB: [bit2rgb], [l2rgb], [la2rgb]
    replicate the luminance, [p2rgb] looks the index up in the palette
    (missing entries are black), [rgba2rgb] drops the fourth band. *)
Definition convert_pixel_RGB (m : Mode) (pal : list pixel) (p : pixel) : pixel :=
  match m with
  | Mode_1 | Mode_L | Mode_LA => let l := nth 0 p 0 in [l; l; l]
  | Mode_P => nth (Z.to_nat (nth 0 p 0)) pal [0; 0; 0]
  | Mode_RGB => p
  | Mode_RGBA => take 3 p
  end.

(** [im.convert('RGB')]: a new image, not bound to a file. *)
Definition Image_convert_RGB (im : Image) : Image :=
  {| mode := Mode_RGB; size := size im;
     data := map (convert_pixel_RGB (mode im) (palette im)) (data im);
     palette := []; fp := None |}.

(** ** Quartz values *)

Inductive CGRect := CGRectInfinite | CGRectMake (x y w h : Z).

(** A captured frame: [CGImageGetWidth], [CGImageGetHeight],
    [CGImageGetBytesPerRow] and the bytes of its data provider. *)
Record CGImage := {
  cg_width : Z;
  cg_height : Z;
  cg_bytes_per_row : Z;
  cg_data : list Z
}.

(** What CoreGraphics guarantees of an image it hands out: it is not
    empty, and a row of its buffer holds at least [width] 4-byte pixels. *)
Definition valid_frame (cg : CGImage) : Prop :=
  1 <= cg_width cg ∧ 1 <= cg_height cg ∧ cg_width cg <= cg_bytes_per_row cg `div` 4.

Inductive CGEventType :=
  kCGEventMouseMoved | kCGEventLeftMouseDown | kCGEventLeftMouseUp.

Inductive CGEvent :=
| KeyboardEvent (key_code : Z) (key_down : bool) (flags : Z)
| MouseEvent (ty : CGEventType) (x y : Z) (click_state : Z).

(** ** Python floats *)

(** A Python [float] as the commands receive it: a finite value, kept as
    the rational it is, an infinity or not-a-number ([click]'s [float]
    type parses "inf" and "nan" too). *)
Inductive float :=
| Finite (q : Q)
| Infinity (negative : bool)
| NaN.
Bind Scope Q_scope with float.
Coercion Finite : Q >-> float.

(** ** The world the program runs in *)

Inductive Stream := Stdout | Stderr.

(** The external calls of the program, as they are logged. *)
Inductive Call :=
| Echo (s : Stream) (msg : string)
| WindowListCreateImage (r : CGRect)
| CreateKeyboardEvent (key_code : Z) (key_down : bool)
| CreateMouseEvent (ty : CGEventType) (x y : Z)
| Post (e : option CGEvent)
| Sleep (seconds : float)
| Open (path : string)
| Close (handle : option nat)
| Save (path : string).

(** What a path of the file system holds: an image file, or a PDF
    document written by [Image.save] (its pages and its resolution). *)
Inductive File :=
| ImageFile (im : Image)
| PdfFile (pages : list Image) (resolution : Q)
| OtherFile.

Record World := {
  fs : gmap string File;
  open_fps : gset nat;
  calls : list Call
}.

Inductive Resampling := NEAREST | LANCZOS.

(** The longest sleep every POSIX system has to support: 31 days. *)
Definition month : Q := 2678400.

(** The answers of the operating system and of the libraries' own
    limits and numeric kernels.  The answers to capture, event and sleep
    requests may depend on everything the program did before (the list of
    calls so far).
    - [window_image]: the frame of a capture request, always a valid one;
    - [sleep_accepted]: whether the system call under [time.sleep] takes
      the length (otherwise [OSError]: Linux, for one, refuses a length
      whose deadline overflows its clock); every system takes a length
      of up to 31 days;
    - [getmtime]: the modification time of a path that resolves, as
      [os.path.getmtime] returns it (the float, in an order-preserving
      integer encoding);
    - [allocates]: whether Pillow can build an image of that size
      (otherwise [MemoryError]);
    - [img2pdf_accepts]: whether [img2pdf] takes the image as a page (it
      has limits of its own on the page size and the colour format);
    - [resample]: what the resampling kernel computes. *)
Class Platform := {
  window_image : list Call -> CGRect -> option CGImage;
  window_image_valid :
    forall cs rect cg, window_image cs rect = Some cg -> valid_frame cg;
  keyboard_event_granted : list Call -> Z -> bool -> bool;
  mouse_event_granted : list Call -> CGEventType -> Z -> Z -> bool;
  sleep_accepted : list Call -> Q -> bool;
  sleep_accepted_month :
    forall cs q, Qle_bool 0 q = true -> Qle_bool q month = true ->
                 sleep_accepted cs q = true;
  writable : string -> bool;
  getmtime : list string -> Z;
  allocates : Z * Z -> bool;
  img2pdf_accepts : Image -> bool;
  resample : Resampling -> Image -> Z * Z -> list pixel
}.

(** ** Exceptions and the error/state monad *)

Inductive Exception :=
| ValueError (msg : string)
| RuntimeError (msg : string)
| OSError (msg : string)
| IndexError (msg : string)
| ZeroDivisionError (msg : string)
| OverflowError (msg : string)
| MemoryError (msg : string).

(** [str(e)] *)
Definition str (e : Exception) : string :=
  match e with
  | ValueError m | RuntimeError m | OSError m | IndexError m
  | ZeroDivisionError m | OverflowError m | MemoryError m => m
  end.

(** [SystemExit] is not an [Exception]: [except Exception] lets it pass. *)
Inductive SystemExit := Exit (code : Z).

Inductive Result (E A : Type) :=
| Ok (a : A)
| Raise (e : E).
Arguments Ok {E A} a.
Arguments Raise {E A} e.

Definition M (E A : Type) : Type := World -> Result E A * World.

Definition ret {E A} (a : A) : M E A := fun w => (Ok a, w).

Definition bind {E A B} (c : M E A) (k : A -> M E B) : M E B :=
  fun w => match c w with
           | (Ok a, w') => k a w'
           | (Raise e, w') => (Raise e, w')
           end.

Definition raise {E A} (e : E) : M E A := fun w => (Raise e, w).

(** [try: body except Exception as e: handler e] *)
Definition try_except {E A} (body : M Exception A) (handler : Exception -> M E A)
  : M E A :=
  fun w => match body w with
           | (Ok a, w') => (Ok a, w')
           | (Raise e, w') => handler e w'
           end.

Declare Scope monad_scope.
Delimit Scope monad_scope with monad.
Notation "x <- c ;; k" := (bind c (fun x => k))
  (at level 100, c at next level, right associativity) : monad_scope.
Notation "c ;; k" := (bind c (fun _ => k))
  (at level 100, right associativity) : monad_scope.
Local Open Scope monad_scope.

Definition log {E} (c : Call) : M E unit :=
  fun w => (Ok tt, {| fs := fs w; open_fps := open_fps w; calls := calls w ++ [c] |}).

(** [for x in l: s = body x s] *)
Fixpoint for_ {E A S} (l : list A) (body : A -> S -> M E S) (s : S) : M E S :=
  match l with
  | [] => ret s
  | x :: l' => s' <- body x s ;; for_ l' body s'
  end.

(** [range(n)] *)
Definition range (n : Z) : list Z := seqZ 0 n.

(** The exit status of the process when the command function returns or
    leaves through [sys.exit]. *)
Definition exit_status {A} (r : Result SystemExit A) : Z :=
  match r with
  | Ok _ => 0
  | Raise (Exit code) => code
  end.

(** [click.echo(msg)] and [click.echo(msg, err=True)] *)
Definition echo {E} (msg : string) : M E unit := log (Echo Stdout msg).
Definition echo_err {E} (msg : string) : M E unit := log (Echo Stderr msg).

(** [sys.exit(code)] *)
Definition sys_exit {A} (code : Z) : M SystemExit A := raise (Exit code).

(** [time.sleep(seconds)] converts the length to a 64-bit count of
    nanoseconds first, in float arithmetic: not-a-number is a
    [ValueError]; an infinity, and a length whose count is beyond 2^63 (a
    length of about 9.2e9 s or more, in either direction), is an
    [OverflowError].  Then a negative count is a [ValueError].  Then the
    system sleeps, or refuses the length with [OSError].  [Sleep] is
    logged when the process has slept.

    [sleep_limit] is 2^63 ns in seconds.  The floats next to 2^63 are
    1024 and 2048 apart, so that the count of a float is beyond 2^63
    exactly when its exact product with 10^9 is beyond 2^63 + 1024
    ([sleep_band] in seconds); the count of the one float in between,
    9223372036.854776, is 2^63 itself, which CPython 3.11 lets pass and
    converts to the negative count -2^63. *)
Definition sleep_limit : Q := 9223372036854775808 # 1000000000.
Definition sleep_band : Q := 9223372036854776832 # 1000000000.

Definition time_sleep `{Platform} (seconds : float) : M Exception unit :=
  match seconds with
  | NaN => raise (ValueError "Invalid value NaN (not a number)")
  | Infinity _ => raise (OverflowError "timestamp too large to convert to C _PyTime_t")
  | Finite q =>
      if negb (Qle_bool q sleep_band) || negb (Qle_bool (- sleep_band) q)
      then raise (OverflowError "timestamp too large to convert to C _PyTime_t")
      else if negb (Qle_bool 0 q) || Qle_bool sleep_limit q
      then raise (ValueError "sleep length must be non-negative")
      else fun w =>
             if sleep_accepted (calls w) q then log (Sleep seconds) w
             else (Raise (OSError "[Errno 22] Invalid argument"), w)
  end.

Arguments time_sleep : simpl never.

(** A length [time.sleep] sleeps, whenever it is called. *)
Definition sleepable `{Platform} (seconds : float) : Prop :=
  match seconds with
  | Finite q =>
      Qle_bool 0 q = true ∧ Qle_bool sleep_limit q = false ∧
      forall cs, sleep_accepted cs q = true
  | _ => False
  end.

(** ** Pillow: files *)

(** [Image.open(path)]: the decoded image, bound to a fresh file handle;
    a missing file or a file that holds no image is an [OSError]
    ([FileNotFoundError] and [UnidentifiedImageError] are subclasses). *)
Definition Image_open (path : string) : M Exception Image :=
  log (Open path) ;;
  fun w =>
    match fs w !! path with
    | Some (ImageFile im) =>
        let h := fresh (open_fps w) in
        (Ok {| mode := mode im; size := size im; data := data im;
               palette := palette im; fp := Some h |},
         {| fs := fs w; open_fps := {[h]} ∪ open_fps w; calls := calls w |})
    | Some _ => (Raise (OSError "cannot identify image file"), w)
    | None => (Raise (OSError "No such file or directory"), w)
    end.

(** [im.close()]: releases the file handle, if the image has one. *)
Definition Image_close (im : Image) : M Exception unit :=
  log (Close (fp im)) ;;
  fun w =>
    match fp im with
    | Some h => (Ok tt, {| fs := fs w; open_fps := open_fps w ∖ {[h]};
                           calls := calls w |})
    | None => (Ok tt, w)
    end.

(** An image without pixels. *)
Definition is_empty (im : Image) : bool := (width im =? 0) || (height im =? 0).

(** What stops Pillow's PDF writer, which takes the pages in order: an
    empty page cannot be encoded ([ValueError]; the pages of the compiler
    are RGB and are encoded as JPEG), and the page box divides the pixel
    size by the resolution ([ZeroDivisionError] at 0).  For each page the
    encoding comes first. *)
Definition save_error (pages : list Image) (resolution : Q) : option Exception :=
  match pages with
  | [] => None
  | first :: _ =>
      if is_empty first then Some (ValueError "cannot write empty image as JPEG")
      else if Qeq_bool resolution 0
      then Some (ZeroDivisionError "float division by zero")
      else if existsb is_empty pages
      then Some (ValueError "cannot write empty image as JPEG")
      else None
  end.

(** [self.save(path, "PDF", save_all=…, append_images=…, resolution=…)]:
    opens the file for writing (an [OSError] if the path cannot be
    written), then writes one page for [self] and, with [save_all], one
    page for each appended image.  When the writer fails, a file that the
    call created is removed again and a file that existed before is left
    truncated. *)
Definition Image_save `{Platform} (self : Image) (path : string)
    (save_all : bool) (append_images : list Image) (resolution : Q)
  : M Exception unit :=
  log (Save path) ;;
  fun w =>
    if writable path then
      let pages := self :: (if save_all then append_images else []) in
      match save_error pages resolution with
      | None =>
          (Ok tt, {| fs := <[path := PdfFile pages resolution]> (fs w);
                     open_fps := open_fps w; calls := calls w |})
      | Some e =>
          (Raise e, {| fs := match fs w !! path with
                             | Some _ => <[path := OtherFile]> (fs w)
                             | None => fs w
                             end;
                       open_fps := open_fps w; calls := calls w |})
      end
    else (Raise (OSError "cannot write output file"), w).

(** [im.copy()] *)
Definition Image_copy (im : Image) : Image :=
  {| mode := mode im; size := size im; data := data im;
     palette := palette im; fp := None |}.

(** The largest C [int]. *)
Definition INT_MAX : Z := 2147483647.

Definition fits_int (n : Z) : bool := (- INT_MAX - 1 <=? n) && (n <=? INT_MAX).

(** The [OverflowError] of a Python int that is handed to C as an [int]
    ([long] is the 64-bit C long). *)
Definition int_overflow (n : Z) : Exception :=
  OverflowError
    (if 9223372036854775807 <? n then "Python int too large to convert to C long"
     else if n <? - 9223372036854775808 then "Python int too large to convert to C long"
     else if INT_MAX <? n then "signed integer is greater than maximum"
     else "signed integer is less than minimum").

(** [im.resize(size, resample)]: a copy when the size is already the
    requested one; an [OverflowError] for a side that is no C int (the
    width is converted first); a [ValueError] for a side below 1; a
    [MemoryError] when the result cannot be allocated; modes 1 and P are
    always resampled with NEAREST.  The mode is kept. *)
Definition Image_resize `{Platform} (im : Image) (sz : Z * Z) (filter : Resampling)
  : M Exception Image :=
  if decide (size im = sz) then ret (Image_copy im)
  else if negb (fits_int (fst sz)) then raise (int_overflow (fst sz))
  else if negb (fits_int (snd sz)) then raise (int_overflow (snd sz))
  else if (fst sz <? 1) || (snd sz <? 1)
  then raise (ValueError "height and width must be > 0")
  else if negb (allocates sz)
  then raise (MemoryError "")
  else
    let filter' :=
      match mode im with Mode_1 | Mode_P => NEAREST | _ => filter end in
    ret {| mode := mode im; size := sz; data := resample filter' im sz;
           palette := palette im; fp := None |}.

(** [l[i]] *)
Definition getitem {A} (l : list A) (i : nat) : M Exception A :=
  match l !! i with
  | Some x => ret x
  | None => raise (IndexError "list index out of range")
  end.

(** ** capturer.py *)

Record CaptureRegion := {
  x : Z;
  y : Z;
  region_width : Z;
  region_height : Z
}.

(** [arr.reshape((height, bytes_per_row // 4, 4))], [arr[:, :width, :]],
    [arr[:, :, [2, 1, 0, 3]]] and [Image.fromarray(arr, mode='RGBA')]. *)
Definition cg_image_to_pil (cg_image : CGImage) : M Exception Image :=
  let width := cg_width cg_image in
  let height := cg_height cg_image in
  let bytes_per_row := cg_bytes_per_row cg_image in
  let buffer := cg_data cg_image in
  let cols := bytes_per_row `div` 4 in
  if decide (Z.of_nat (length buffer) = height * cols * 4) then
    let pixels := reshape (replicate (Z.to_nat (height * cols)) 4%nat) buffer in
    let rows := reshape (replicate (Z.to_nat height) (Z.to_nat cols)) pixels in
    let arr := map (take (Z.to_nat width)) rows in
    let arr := map (map (fun p : pixel =>
                           [nth 2 p 0; nth 1 p 0; nth 0 p 0; nth 3 p 0])) arr in
    ret {| mode := Mode_RGBA; size := (Z.min width cols, height);
           data := concat arr; palette := []; fp := None |}
  else raise (ValueError "cannot reshape array").

(** The call [CGWindowListCreateImage(rect, kCGWindowListOptionOnScreenOnly,
    kCGNullWindowID, 0)]. *)
Definition CGWindowListCreateImage `{Platform} {E} (rect : CGRect)
  : M E (option CGImage) :=
  fun w => (Ok (window_image (calls w) rect),
            {| fs := fs w; open_fps := open_fps w;
               calls := calls w ++ [WindowListCreateImage rect] |}).

Definition capture_full_screen `{Platform} : M Exception Image :=
  cg_image <- CGWindowListCreateImage CGRectInfinite ;;
  match cg_image with
  | None =>
      raise (RuntimeError
        ("Screen capture failed. Please ensure Screen Recording permission is granted "
         +:+ "in System Preferences > Privacy & Security > Screen Recording"))
  | Some cg_image => cg_image_to_pil cg_image
  end.

Definition capture_region `{Platform} (region : CaptureRegion) : M Exception Image :=
  let rect := CGRectMake (x region) (y region)
                         (region_width region) (region_height region) in
  cg_image <- CGWindowListCreateImage rect ;;
  match cg_image with
  | None =>
      raise (RuntimeError "Region capture failed. Check Screen Recording permission.")
  | Some cg_image =>
      image <- cg_image_to_pil cg_image ;;
      if bool_decide (width image ≠ region_width region)
         || bool_decide (height image ≠ region_height region)
      then Image_resize image (region_width region, region_height region) LANCZOS
      else ret image
  end.

(** ** navigator.py *)

(** macOS virtual key codes. *)
Inductive KeyCode :=
| RIGHT_ARROW | LEFT_ARROW | UP_ARROW | DOWN_ARROW
| RETURN | TAB | SPACE | DELETE | ESCAPE
| F1 | F2 | F3 | F4 | F5
| KEY_A | KEY_S | KEY_D | KEY_F | KEY_N | KEY_P
| KEY_0 | KEY_1 | KEY_2 | KEY_3
| PAGE_UP | PAGE_DOWN | HOME | END.

Definition key_value (k : KeyCode) : Z :=
  match k with
  | RIGHT_ARROW => 0x7C | LEFT_ARROW => 0x7B | UP_ARROW => 0x7E
  | DOWN_ARROW => 0x7D | RETURN => 0x24 | TAB => 0x30 | SPACE => 0x31
  | DELETE => 0x33 | ESCAPE => 0x35
  | F1 => 0x7A | F2 => 0x78 | F3 => 0x63 | F4 => 0x76 | F5 => 0x60
  | KEY_A => 0x00 | KEY_S => 0x01 | KEY_D => 0x02 | KEY_F => 0x03
  | KEY_N => 0x2D | KEY_P => 0x23
  | KEY_0 => 0x1D | KEY_1 => 0x12 | KEY_2 => 0x13 | KEY_3 => 0x14
  | PAGE_UP => 0x74 | PAGE_DOWN => 0x79 | HOME => 0x73 | END => 0x77
  end.

Definition kCGEventFlagMaskCommand : Z := 0x100000.

(** [CGEventCreateKeyboardEvent(None, key_code, down)]: an event, or
    [None] when the platform refuses to create one. *)
Definition CGEventCreateKeyboardEvent `{Platform} {E} (key_code : Z) (down : bool)
  : M E (option CGEvent) :=
  fun w =>
    (Ok (if keyboard_event_granted (calls w) key_code down
         then Some (KeyboardEvent key_code down 0) else None),
     {| fs := fs w; open_fps := open_fps w;
        calls := calls w ++ [CreateKeyboardEvent key_code down] |}).

(** [CGEventCreateMouseEvent(None, type, point, kCGMouseButtonLeft)] *)
Definition CGEventCreateMouseEvent `{Platform} {E} (ty : CGEventType) (px py : Z)
  : M E (option CGEvent) :=
  fun w =>
    (Ok (if mouse_event_granted (calls w) ty px py
         then Some (MouseEvent ty px py 0) else None),
     {| fs := fs w; open_fps := open_fps w;
        calls := calls w ++ [CreateMouseEvent ty px py] |}).

(** [CGEventSetFlags(event, flags)] and
    [CGEventSetIntegerValueField(event, kCGMouseEventClickState, n)] update
    the event in place; on [None] there is nothing to update. *)
Definition CGEventSetFlags (event : option CGEvent) (modifiers : Z) : option CGEvent :=
  match event with
  | Some (KeyboardEvent k d _) => Some (KeyboardEvent k d modifiers)
  | e => e
  end.

Definition CGEventSetClickState (event : option CGEvent) (n : Z) : option CGEvent :=
  match event with
  | Some (MouseEvent ty px py _) => Some (MouseEvent ty px py n)
  | e => e
  end.

(** [CGEventPost(kCGHIDEventTap, event)] *)
Definition CGEventPost {E} (event : option CGEvent) : M E unit := log (Post event).

Definition press_key `{Platform} (key_code : KeyCode) (modifiers : Z)
  : M Exception unit :=
  event_down <- CGEventCreateKeyboardEvent (key_value key_code) true ;;
  match event_down with
  | None =>
      raise (RuntimeError
        ("Failed to create keyboard event. "
         +:+ "Please grant Accessibility permission in "
         +:+ "System Preferences > Privacy & Security > Accessibility"))
  | Some _ =>
      let event_down :=
        if bool_decide (modifiers ≠ 0) then CGEventSetFlags event_down modifiers
        else event_down in
      CGEventPost event_down ;;
      time_sleep 0.05 ;;
      event_up <- CGEventCreateKeyboardEvent (key_value key_code) false ;;
      let event_up :=
        if bool_decide (modifiers ≠ 0) then CGEventSetFlags event_up modifiers
        else event_up in
      CGEventPost event_up ;;
      time_sleep 0.05
  end.

Definition press_key_with_command `{Platform} (key_code : KeyCode) : M Exception unit :=
  press_key key_code kCGEventFlagMaskCommand.

Definition click `{Platform} (px py : Z) : M Exception unit :=
  move_event <- CGEventCreateMouseEvent kCGEventMouseMoved px py ;;
  CGEventPost move_event ;;
  time_sleep 0.05 ;;
  down_event <- CGEventCreateMouseEvent kCGEventLeftMouseDown px py ;;
  let down_event := CGEventSetClickState down_event 1 in
  CGEventPost down_event ;;
  time_sleep 0.05 ;;
  up_event <- CGEventCreateMouseEvent kCGEventLeftMouseUp px py ;;
  let up_event := CGEventSetClickState up_event 1 in
  CGEventPost up_event ;;
  time_sleep 0.1.

Definition next_page `{Platform} : M Exception unit := press_key RIGHT_ARROW 0.

Definition previous_page `{Platform} : M Exception unit := press_key LEFT_ARROW 0.

Definition wait_for_page `{Platform} (page_delay : float) : M Exception unit :=
  time_sleep page_delay.

Definition navigate_and_wait `{Platform} (page_delay : float) : M Exception unit :=
  next_page ;; wait_for_page page_delay.

Definition click_and_wait `{Platform} (px py : Z) (wait : float) : M Exception unit :=
  click px py ;; time_sleep wait.

(** ** pdf_compiler.py *)

(** The body of the conversion loop of [compile]: what one image appends
    to [rgb_images]. *)
Definition compile_step (img : Image) (rgb_images : list Image)
  : M Exception (list Image) :=
  if decide (mode img = Mode_RGBA) then
    let background := Image_new Mode_RGB (size img) [255; 255; 255] in
    alpha <- getitem (Image_split img) 3 ;;
    let background := Image_paste background img alpha in
    ret (rgb_images ++ [background])
  else if decide (mode img ≠ Mode_RGB) then
    ret (rgb_images ++ [Image_convert_RGB img])
  else
    ret (rgb_images ++ [img]).

(** [compile(images, output_path, dpi)]; the resolution [dpi] is a finite
    float, 150 unless the caller gives another one (the commands do
    not). *)
Definition compile `{Platform} (images : list Image) (output_path : string) (dpi : Q)
  : M Exception unit :=
  match images with
  | [] => raise (ValueError "No images provided")
  | _ =>
      rgb_images <- for_ images compile_step [] ;;
      first_image <- getitem rgb_images 0 ;;
      if bool_decide (1 < length rgb_images)%nat then
        Image_save first_image output_path true (drop 1 rgb_images) dpi
      else
        Image_save first_image output_path false [] dpi
  end.

(** [[Image.open(path) for path in image_paths]] *)
Fixpoint open_all (image_paths : list string) : M Exception (list Image) :=
  match image_paths with
  | [] => ret []
  | path :: rest =>
      img <- Image_open path ;;
      imgs <- open_all rest ;;
      ret (img :: imgs)
  end.

Definition compile_from_files `{Platform} (image_paths : list string)
    (output_path : string) (dpi : Q) : M Exception unit :=
  images <- open_all image_paths ;;
  compile images output_path dpi ;;
  for_ images (fun img _ => Image_close img) tt.

(** ** cli.py *)

(** The handler of both capture commands:
    [click.echo(f"Error: {e}", err=True); sys.exit(1)]. *)
Definition report_and_exit {A} (e : Exception) : M SystemExit A :=
  echo_err ("Error: " +:+ str e) ;; sys_exit 1.

(** The body of the [for] loop of [capture_book], for the page index [i]. *)
Definition capture_book_loop `{Platform} (page_count : Z)
    (region : option CaptureRegion) (delay : float) (i : Z) (images : list Image)
  : M Exception (list Image) :=
  echo ("Capturing page " +:+ pretty (i + 1) +:+ "/" +:+ pretty page_count +:+ "...") ;;
  image <- match region with
           | Some region => capture_region region
           | None => capture_full_screen
           end ;;
  let images := images ++ [image] in
  (if bool_decide (i < page_count - 1) then navigate_and_wait delay else ret tt) ;;
  ret images.

(** The body of the [try] block of [capture_book]. *)
Definition capture_book_body `{Platform} (page_count : Z) (output_path : string)
    (region : option CaptureRegion) (delay : float) : M Exception unit :=
  images <- for_ (range page_count) (capture_book_loop page_count region delay) [] ;;
  echo ("Compiling PDF to " +:+ output_path +:+ "...") ;;
  compile images output_path 150 ;;
  echo ("Done! Created " +:+ output_path).

Definition capture_book `{Platform} (page_count : Z) (output_path : string)
    (region : option CaptureRegion) (delay : float) : M SystemExit unit :=
  try_except (capture_book_body page_count output_path region delay)
    report_and_exit.

(** The body of the [try] block of [capture_with_button]. *)
Definition capture_with_button_body `{Platform} (page_count : Z)
    (capture_button : Z * Z) (delay capture_delay : float)
    (confirm_button : option (Z * Z)) (confirm_delay : float) : M Exception unit :=
  echo ("Starting capture of " +:+ pretty page_count +:+ " pages...") ;;
  echo ("Capture button at: (" +:+ pretty (fst capture_button) +:+ ", "
        +:+ pretty (snd capture_button) +:+ ")") ;;
  match confirm_button with
  | Some confirm_button =>
      echo ("Confirm button at: (" +:+ pretty (fst confirm_button) +:+ ", "
            +:+ pretty (snd confirm_button) +:+ ")")
  | None => ret tt
  end ;;
  echo "Make sure Kyobo Library app is focused!" ;;
  echo "" ;;
  echo "Starting in 3 seconds..." ;;
  time_sleep 3 ;;
  for_ (range page_count) (fun i _ =>
      echo ("Page " +:+ pretty (i + 1) +:+ "/" +:+ pretty page_count
            +:+ ": Clicking capture button...") ;;
      click_and_wait (fst capture_button) (snd capture_button) capture_delay ;;
      match confirm_button with
      | Some confirm_button =>
          click_and_wait (fst confirm_button) (snd confirm_button) confirm_delay
      | None => ret tt
      end ;;
      if bool_decide (i < page_count - 1) then
        echo ("Page " +:+ pretty (i + 1) +:+ "/" +:+ pretty page_count
              +:+ ": Navigating to next page...") ;;
        navigate_and_wait delay
      else ret tt) tt ;;
  echo "" ;;
  echo ("Done! Captured " +:+ pretty page_count +:+ " pages.") ;;
  echo "Check your capture folder for the saved images." ;;
  echo "You can use 'capture-pdf compile' to combine them into PDF.".

Definition capture_with_button `{Platform} (page_count : Z)
    (capture_button : Z * Z) (delay capture_delay : float)
    (confirm_button : option (Z * Z)) (confirm_delay : float) : M SystemExit unit :=
  try_except
    (capture_with_button_body page_count capture_button delay capture_delay
                              confirm_button confirm_delay)
    report_and_exit.

(** *** The [compile] command *)

(** [list.sort(key=key, reverse=reverse)] compares keys with [<] only and
    is stable.  The model is the insertion sort CPython runs on short
    lists: every element is inserted behind the elements that are not
    greater.  With [reverse=True] CPython reverses the list, sorts it the
    same way and reverses the result, which keeps equal keys in their
    original order. *)
Section list_sort.
Context {A K : Type} (key : A -> K) (lt : K -> K -> bool).

Fixpoint insort (x : A) (sorted : list A) : list A :=
  match sorted with
  | [] => [x]
  | y :: rest =>
      if lt (key x) (key y) then x :: sorted else y :: insort x rest
  end.

Definition stable_sort (l : list A) : list A :=
  fold_left (fun sorted x => insort x sorted) l [].

Definition list_sort (reverse : bool) (l : list A) : list A :=
  if reverse then rev (stable_sort (rev l)) else stable_sort l.
End list_sort.

(** The strict order of the sort keys, as a relation on the elements. *)
Definition key_lt {A} (key : A -> Z) (a b : A) : Prop := key a < key b.

(** A [pathlib.Path] is compared through the list of its parts. *)
Abbreviation Path := (list string).

Fixpoint Path_lt (a b : Path) : bool :=
  match a, b with
  | [], [] => false
  | [], _ :: _ => true
  | _ :: _, [] => false
  | p :: a', q :: b' => if String.eqb p q then Path_lt a' b' else String.ltb p q
  end.

(** [str(path)] *)
Definition Path_str (p : Path) : string := String.concat "/" p.

(** The "Sort files" block of the command: the order in which the files
    are handed to the converter, and the message echoed. *)
Definition sort_files `{Platform} (sort : string) (image_files : list Path)
  : list Path * string :=
  if decide (sort = "time") then
    (list_sort getmtime Z.ltb false image_files,
     "Sorting by creation time (oldest first)")
  else if decide (sort = "time-desc") then
    (list_sort getmtime Z.ltb true image_files,
     "Sorting by creation time (newest first)")
  else
    (list_sort id Path_lt false image_files, "Sorting by filename").

(** An exception that no handler catches ends the process with a
    traceback on the error stream and status 1. *)
Definition uncaught {A} (body : M Exception A) : M SystemExit A :=
  try_except body (fun e => echo_err ("Traceback (most recent call last): " +:+ str e) ;;
                            sys_exit 1).

(** [img2pdf.convert(names)]: every name has to be an image file that
    [img2pdf] takes as a page; the pages of the document are the images,
    in the order of the names. *)
Fixpoint img2pdf_convert `{Platform} (names : list string) : M Exception (list Image) :=
  match names with
  | [] => ret []
  | name :: rest =>
      page <- (fun w => match fs w !! name with
                        | Some (ImageFile im) =>
                            if img2pdf_accepts im then (Ok im, w)
                            else (Raise (ValueError "image not accepted as a page"), w)
                        | _ => (Raise (OSError "cannot read input image"), w)
                        end) ;;
      pages <- img2pdf_convert rest ;;
      ret (page :: pages)
  end.

(** [os.path.getmtime(f)]: an [OSError] for a path that does not resolve
    to a file (a dangling symbolic link is listed by [glob]). *)
Definition os_path_getmtime `{Platform} (f : Path) : M Exception Z :=
  fun w => match fs w !! Path_str f with
           | Some _ => (Ok (getmtime f), w)
           | None => (Raise (OSError "No such file or directory"), w)
           end.

(** [list.sort(key=…)] calls the key function on every element, in the
    order of the list, before it compares anything; the sorts by time
    ask for the modification time of every file. *)
Definition sort_keys `{Platform} (sort : string) (image_files : list Path)
  : M Exception unit :=
  if decide (sort = "time" ∨ sort = "time-desc") then
    for_ image_files (fun f _ => _ <- os_path_getmtime f ;; ret tt) tt
  else ret tt.

(** The "Sort files" block as it runs: the keys are computed, then the
    list is in the order of [sort_files]. *)
Definition sort_block `{Platform} (sort : string) (image_files : list Path)
  : M Exception (list Path * string) :=
  sort_keys sort image_files ;;
  ret (sort_files sort image_files).

(** [open(output_path, "wb")] creates or truncates the file;
    [f.write(document)] fills it. *)
Definition open_wb `{Platform} (path : string) : M Exception unit :=
  fun w =>
    if writable path then
      (Ok tt, {| fs := <[path := OtherFile]> (fs w); open_fps := open_fps w;
                 calls := calls w |})
    else (Raise (OSError "cannot write output file"), w).

Definition write_pdf (path : string) (pages : list Image) : M Exception unit :=
  fun w => (Ok tt, {| fs := <[path := PdfFile pages 96]> (fs w);
                      open_fps := open_fps w; calls := calls w |}).

(** The command [compile --input DIR --output PATH --pattern GLOB --sort S];
    [image_files] is the result of [input_path.glob(pattern)]. *)
Definition cli_compile `{Platform} (image_files : list Path)
    (input output pattern sort : string) : M SystemExit unit :=
  match image_files with
  | [] =>
      echo_err ("No images found matching '" +:+ pattern +:+ "' in " +:+ input) ;;
      sys_exit 1
  | _ =>
      sorted <- uncaught (sort_block sort image_files) ;;
      let '(image_files, msg) := sorted in
      echo msg ;;
      echo ("Found " +:+ pretty (length image_files) +:+ " images") ;;
      echo "Converting with original quality (lossless)..." ;;
      uncaught (open_wb output ;;
                pages <- img2pdf_convert (map Path_str image_files) ;;
                write_pdf output pages) ;;
      echo ("Created " +:+ output)
  end.

(** ** Readings of the compiler's conversion loop *)

(** The alpha band of an RGBA image, [img.split()[3]]. *)
Definition alpha_band (img : Image) : Image :=
  {| mode := Mode_L; size := size img;
     data := map (fun p : pixel => [nth 3 p 0]) (data img);
     palette := []; fp := None |}.

(** The white background with the image pasted through its alpha band. *)
Definition paste_on_white (img : Image) : Image :=
  Image_paste (Image_new Mode_RGB (size img) [255; 255; 255]) img (alpha_band img).

(** The page one input image becomes. *)
Definition rgb_page (img : Image) : Image :=
  if decide (mode img = Mode_RGBA) then paste_on_white img
  else if decide (mode img ≠ Mode_RGB) then Image_convert_RGB img
  else img.





(** ** Concrete inputs *)

(** A 2x1 frame as Quartz delivers it: BGRA bytes, one padding pixel per
    row (12 bytes per row for 2 pixels). *)
Definition frame_2x1 : CGImage :=
  {| cg_width := 2; cg_height := 1; cg_bytes_per_row := 12;
     cg_data := [10; 20; 30; 255;  40; 50; 60; 128;  0; 0; 0; 0] |}.

(** A platform that grants everything and shows the same frame for every
    request; its resampling kernel paints every pixel opaque black. *)
Definition granting_platform : Platform :=
  {| window_image := fun _ _ => Some frame_2x1;
     window_image_valid := ltac:(intros cs rect cg [= <-]; repeat split; vm_compute; discriminate);
     keyboard_event_granted := fun _ _ _ => true;
     mouse_event_granted := fun _ _ _ _ => true;
     sleep_accepted := fun _ _ => true;
     sleep_accepted_month := fun _ _ _ _ => eq_refl;
     writable := fun _ => true;
     getmtime := fun p => Z.of_nat (length p);
     allocates := fun _ => true;
     img2pdf_accepts := fun _ => true;
     resample := fun _ _ sz => replicate (Z.to_nat (fst sz * snd sz)) [0; 0; 0; 255] |}.

(** A platform that refuses every request. *)
Definition refusing_platform : Platform :=
  {| window_image := fun _ _ => None;
     window_image_valid := ltac:(intros cs rect cg Hnone; discriminate Hnone);
     keyboard_event_granted := fun _ _ _ => false;
     mouse_event_granted := fun _ _ _ _ => false;
     sleep_accepted := fun _ _ => true;
     sleep_accepted_month := fun _ _ _ _ => eq_refl;
     writable := fun _ => false;
     getmtime := fun p => 0;
     allocates := fun _ => true;
     img2pdf_accepts := fun _ => true;
     resample := fun _ _ _ => [] |}.

(** A platform that creates key-down events and refuses key-up events. *)
Definition key_up_refusing_platform : Platform :=
  {| window_image := fun _ _ => Some frame_2x1;
     window_image_valid := ltac:(intros cs rect cg [= <-]; repeat split; vm_compute; discriminate);
     keyboard_event_granted := fun _ _ down => down;
     mouse_event_granted := fun _ _ _ _ => true;
     sleep_accepted := fun _ _ => true;
     sleep_accepted_month := fun _ _ _ _ => eq_refl;
     writable := fun _ => true;
     getmtime := fun p => 0;
     allocates := fun _ => true;
     img2pdf_accepts := fun _ => true;
     resample := fun _ _ _ => [] |}.

Definition empty_world : World := {| fs := ∅; open_fps := ∅; calls := [] |}.

(** A 1x1 RGBA image, half transparent red. *)
Definition rgba_1x1 : Image :=
  {| mode := Mode_RGBA; size := (1, 1); data := [[255; 0; 0; 128]];
     palette := []; fp := None |}.

(** A 1x1 RGB image. *)
Definition rgb_1x1 : Image :=
  {| mode := Mode_RGB; size := (1, 1); data := [[1; 2; 3]];
     palette := []; fp := None |}.

(** A 1x1 grey image with an alpha band: black, fully transparent. *)
Definition la_1x1 : Image :=
  {| mode := Mode_LA; size := (1, 1); data := [[0; 0]];
     palette := []; fp := None |}.

(** ** Readings of the capturer *)

(** The buffer of a frame has the length its header announces. *)
Definition frame_consistent (cg : CGImage) : Prop :=
  Z.of_nat (length (cg_data cg)) = cg_height cg * (cg_bytes_per_row cg `div` 4) * 4.

(** The image [region] asks for, given the image the frame converts to. *)
Definition resized_to (P : Platform) (region : CaptureRegion) (frame : Image) : Image :=
  {| mode := mode frame;
     size := (region_width region, region_height region);
     data := resample LANCZOS frame (region_width region, region_height region);
     palette := palette frame; fp := None |}.

Definition region_rect (region : CaptureRegion) : CGRect :=
  CGRectMake (x region) (y region) (region_width region) (region_height region).

(** The world after one more external call. *)
Definition after_call (w : World) (c : Call) : World :=
  {| fs := fs w; open_fps := open_fps w; calls := calls w ++ [c] |}.

Definition region_100 : CaptureRegion :=
  {| x := 100; y := 100; region_width := 1; region_height := 1 |}.

Definition region_2x1 : CaptureRegion :=
  {| x := 0; y := 0; region_width := 2; region_height := 1 |}.

(** What [capture_region region_100] returns on the granting platform:
    the 2x1 frame, resampled to 1x1. *)
Definition captured_1x1 : Image :=
  resized_to granting_platform region_100
    {| mode := Mode_RGBA; size := (2, 1);
       data := [[30; 20; 10; 255]; [60; 50; 40; 128]];
       palette := []; fp := None |}.

(** ** Readings of [compile_from_files] *)

(** The file handles of a list of images. *)
Definition handles (images : list Image) : gset nat := list_to_set (omap fp images).

(** [img] is what [Image.open] decodes from [path] in the file system
    [files]: the stored image, bound to some file handle. *)
Definition decoded_from (files : gmap string File) (path : string) (img : Image) : Prop :=
  exists im h, files !! path = Some (ImageFile im) ∧
               img = {| mode := mode im; size := size im; data := data im;
                        palette := palette im; fp := Some h |}.

(** A file system with two images. *)
Definition two_images : World :=
  {| fs := {[ "p1.png"%string := ImageFile rgba_1x1; "p2.png"%string := ImageFile la_1x1 ]};
     open_fps := ∅; calls := [] |}.

(** ** Readings of the capture loop *)

(** The image a consistent frame converts to. *)
Definition frame_image (cg : CGImage) : Image :=
  let cols := cg_bytes_per_row cg `div` 4 in
  {| mode := Mode_RGBA; size := (Z.min (cg_width cg) cols, cg_height cg);
     data := concat
       (map (map (fun p : pixel => [nth 2 p 0; nth 1 p 0; nth 0 p 0; nth 3 p 0]))
          (map (take (Z.to_nat (cg_width cg)))
             (reshape (replicate (Z.to_nat (cg_height cg)) (Z.to_nat cols))
                (reshape (replicate (Z.to_nat (cg_height cg * cols)) 4%nat)
                         (cg_data cg)))));
     palette := []; fp := None |}.










Definition count (f : Call -> bool) (cs : list Call) : Z :=
  Z.of_nat (length (filter (fun c => f c = true) cs)).

(** A platform that delivers frames and refuses keyboard events. *)
Definition no_accessibility_platform : Platform :=
  {| window_image := fun _ _ => Some frame_2x1;
     window_image_valid := ltac:(intros cs rect cg [= <-]; repeat split; vm_compute; discriminate);
     keyboard_event_granted := fun _ _ _ => false;
     mouse_event_granted := fun _ _ _ _ => true;
     sleep_accepted := fun _ _ => true;
     sleep_accepted_month := fun _ _ _ _ => eq_refl;
     writable := fun _ => true;
     getmtime := fun p => 0;
     allocates := fun _ => true;
     img2pdf_accepts := fun _ => true;
     resample := fun _ _ _ => [] |}.

(** A platform that grants everything but writing files. *)
Definition read_only_platform : Platform :=
  {| window_image := fun _ _ => Some frame_2x1;
     window_image_valid := ltac:(intros cs rect cg [= <-]; repeat split; vm_compute; discriminate);
     keyboard_event_granted := fun _ _ _ => true;
     mouse_event_granted := fun _ _ _ _ => true;
     sleep_accepted := fun _ _ => true;
     sleep_accepted_month := fun _ _ _ _ => eq_refl;
     writable := fun _ => false;
     getmtime := fun p => 0;
     allocates := fun _ => true;
     img2pdf_accepts := fun _ => true;
     resample := fun _ _ _ => [] |}.

(** ** The specification's reading of the conversion *)


(** ** cli.py: parsing and the commands *)

(** Python's [str.strip()] and [int(s)], as the interpreter provides
    them; [int] gives the value or the message of its [ValueError]. *)
Class Python := {
  py_strip : string -> string;
  py_int : string -> Result string Z
}.

(** [s.split(',')]: the fields between the commas; a string without a
    comma is one field. *)
Fixpoint split_comma (s : string) : list string :=
  match s with
  | EmptyString => [EmptyString]
  | String c rest =>
      if Ascii.eqb c (Ascii.ascii_of_nat 44) then EmptyString :: split_comma rest
      else match split_comma rest with
           | field :: fields => String c field :: fields
           | [] => [String c EmptyString]
           end
  end.

(** [[int(x.strip()) for x in fields]]: stops at the first field that
    [int] rejects. *)
Fixpoint int_fields `{Python} (fields : list string) : Result string (list Z) :=
  match fields with
  | [] => Ok []
  | field :: rest =>
      match py_int (py_strip field) with
      | Raise msg => Raise msg
      | Ok n =>
          match int_fields rest with
          | Raise msg => Raise msg
          | Ok ns => Ok (n :: ns)
          end
      end
  end.

(** What a command function can leave with: [click.BadParameter] or
    [SystemExit]. *)
Inductive CliError :=
| BadParameter (msg : string)
| SysExit (e : SystemExit).

(** [parse_region]: [None] and the empty string give [None]. *)
Definition parse_region `{Python} (region_str : option string)
  : Result CliError (option CaptureRegion) :=
  match region_str with
  | None | Some EmptyString => Ok None
  | Some region_str =>
      match int_fields (split_comma region_str) with
      | Raise msg => Raise (BadParameter ("Invalid region format: " +:+ msg))
      | Ok parts =>
          match parts with
          | [p0; p1; p2; p3] =>
              Ok (Some {| x := p0; y := p1; region_width := p2; region_height := p3 |})
          | _ =>
              Raise (BadParameter ("Invalid region format: "
                                   +:+ "Region must have 4 values: x,y,width,height"))
          end
      end
  end.

(** [parse_point] *)
Definition parse_point `{Python} (point_str : option string)
  : Result CliError (option (Z * Z)) :=
  match point_str with
  | None | Some EmptyString => Ok None
  | Some point_str =>
      match int_fields (split_comma point_str) with
      | Raise msg => Raise (BadParameter ("Invalid point format: " +:+ msg))
      | Ok parts =>
          match parts with
          | [p0; p1] => Ok (Some (p0, p1))
          | _ => Raise (BadParameter ("Invalid point format: "
                                      +:+ "Point must have 2 values: x,y"))
          end
      end
  end.

(** permissions.py: the two checks are the answers of the system calls. *)
Class Permissions := {
  CGPreflightScreenCaptureAccess : bool;
  AXIsProcessTrusted : bool
}.

Definition check_screen_recording_permission `{Permissions} : bool :=
  CGPreflightScreenCaptureAccess.

Definition check_accessibility_permission `{Permissions} : bool :=
  AXIsProcessTrusted.

(** A pure result inside the monad, and a computation whose exceptions
    are seen through [f]. *)
Definition lift_result {E A} (r : Result E A) : M E A := fun w => (r, w).

Definition map_error {E E' A} (f : E -> E') (c : M E A) : M E' A :=
  fun w => match c w with
           | (Ok a, w') => (Ok a, w')
           | (Raise e, w') => (Raise (f e), w')
           end.

Definition newline : string := String (Ascii.ascii_of_nat 10) EmptyString.

(** [click.echo(msg, err=True); sys.exit(1)] *)
Definition fail_with (msg : string) : M CliError unit :=
  echo_err msg ;; raise (SysExit (Exit 1)).

(** The command [screenshot]. *)
Definition screenshot `{Platform} `{Permissions} `{Python}
    (pages : Z) (output : string) (delay : float) (region : option string)
  : M CliError unit :=
  (if negb check_screen_recording_permission then
     fail_with ("Error: Screen Recording permission not granted." +:+ newline +:+
                "Please grant permission in System Preferences > Privacy & Security > Screen Recording")
   else ret tt) ;;
  (if negb check_accessibility_permission then
     fail_with ("Error: Accessibility permission not granted." +:+ newline +:+
                "Please grant permission in System Preferences > Privacy & Security > Accessibility")
   else ret tt) ;;
  capture_region <- lift_result (parse_region region) ;;
  let output_path := output in
  map_error SysExit (capture_book pages output_path capture_region delay).

(** The command [button]; [capture_with_button] runs with its default
    [confirm_delay] of 0.3 seconds. *)
Definition button `{Platform} `{Permissions} `{Python}
    (pages : Z) (button : string) (confirm : option string) (delay capture_delay : float)
  : M CliError unit :=
  (if negb check_accessibility_permission then
     fail_with ("Error: Accessibility permission not granted." +:+ newline +:+
                "Please grant permission in System Preferences > Privacy & Security > Accessibility")
   else ret tt) ;;
  capture_button <- lift_result (parse_point (Some button)) ;;
  match capture_button with
  | None => fail_with "Error: --button is required"
  | Some capture_button =>
      confirm_button <- match confirm with
                        | None | Some EmptyString => ret None
                        | Some _ => lift_result (parse_point confirm)
                        end ;;
      map_error SysExit
        (capture_with_button pages capture_button delay capture_delay confirm_button 0.3)
  end.

(** The legacy entry point [main]; without [pages] or [output] it hands
    over to the click group [cli], which is a parameter here. *)
Definition main `{Platform} `{Permissions} `{Python} (cli : M CliError unit)
    (pages : option Z) (output : option string) (delay : float) (region : option string)
  : M CliError unit :=
  match pages, output with
  | Some pages, Some output =>
      (if negb check_screen_recording_permission then
         fail_with "Error: Screen Recording permission not granted."
       else ret tt) ;;
      (if negb check_accessibility_permission then
         fail_with "Error: Accessibility permission not granted."
       else ret tt) ;;
      capture_region <- lift_result (parse_region region) ;;
      map_error SysExit (capture_book pages output capture_region delay)
  | _, _ => cli
  end.

(** The number of commas of a string. *)
Fixpoint count_commas (s : string) : nat :=
  match s with
  | EmptyString => 0
  | String c rest =>
      if Ascii.eqb c (Ascii.ascii_of_nat 44) then S (count_commas rest)
      else count_commas rest
  end.

(** An [int] that reads an optional minus sign and decimal digits, and a
    [strip] that removes nothing. *)
Fixpoint read_digits (s : string) (acc : Z) : option Z :=
  match s with
  | EmptyString => Some acc
  | String c rest =>
      let d := Z.of_nat (Ascii.nat_of_ascii c) - 48 in
      if (0 <=? d) && (d <=? 9) then read_digits rest (10 * acc + d) else None
  end.

Definition decimal_python : Python :=
  {| py_strip := fun s => s;
     py_int := fun s =>
       match s with
       | EmptyString => Raise "invalid literal for int() with base 10: ''"
       | String c rest =>
           let r := if Ascii.eqb c (Ascii.ascii_of_nat 45)
                    then match rest with
                         | EmptyString => None
                         | _ => Z.opp <$> read_digits rest 0
                         end
                    else read_digits s 0 in
           match r with
           | Some n => Ok n
           | None => Raise "invalid literal for int() with base 10"
           end
       end |}.

(** ** What a computation leaves alone *)

(** [c] keeps the file system and the open handles, and every call it
    makes satisfies [ok]. *)
Definition only_calls {E A} (ok : Call -> bool) (c : M E A) : Prop :=
  forall w,
    fs (c w).2 = fs w ∧ open_fps (c w).2 = open_fps w ∧
    exists cs, calls (c w).2 = calls w ++ cs ∧ Forall (fun call => ok call = true) cs.

(** Calls that synthesize input, sleep or print. *)
Definition is_input_or_echo (c : Call) : bool :=
  match c with
  | WindowListCreateImage _ | Open _ | Close _ | Save _ => false
  | _ => true
  end.

(** Calls that do not touch a file. *)
Definition is_not_file_call (c : Call) : bool :=
  match c with
  | Open _ | Close _ | Save _ => false
  | _ => true
  end.

(** ** Counting the requests of the button workflow *)

(** A request for a left-button press, and a request for a key press. *)
Definition is_click_request (c : Call) : bool :=
  match c with CreateMouseEvent kCGEventLeftMouseDown _ _ => true | _ => false end.

Definition is_key_request (c : Call) : bool :=
  match c with CreateKeyboardEvent _ true => true | _ => false end.

(** [c] returns on every world, touches only the list of calls, and adds
    [clicks] click requests and [keys] key requests to it. *)
Definition tally {E A} (c : M E A) (clicks keys : Z) : Prop :=
  forall w, exists a cs,
    c w = (Ok a, {| fs := fs w; open_fps := open_fps w; calls := calls w ++ cs |}) ∧
    count is_click_request cs = clicks ∧ count is_key_request cs = keys.

(** The platform grants every key-down event. *)
Definition key_down_granted (P : Platform) : Prop :=
  forall cs key_code, keyboard_event_granted cs key_code true = true.

(** The clicks of one round: the capture button and, when there is one,
    the confirm button. *)
Definition clicks_per_page (confirm_button : option (Z * Z)) : Z :=
  match confirm_button with
  | Some _ => 2
  | None => 1
  end.


Definition no_screen_recording : Permissions :=
  {| CGPreflightScreenCaptureAccess := false; AXIsProcessTrusted := true |}.

(** The order of the sort keys, as a relation on the elements. *)
Definition key_le {A} (key : A -> Z) (a b : A) : Prop := key a <= key b.

(** [name] holds an image in the file system [files]. *)
Definition holds_image (files : gmap string File) (name : string) : Prop :=
  exists im, files !! name = Some (ImageFile im).


(** ** Images with pixels, and the specification's unconditional readings *)

(** An image with at least one pixel. *)
Definition nonempty (im : Image) : Prop := 1 <= width im ∧ 1 <= height im.


(** The claim C9 as the specification words it: whatever [compile] does,
    every decoded image is closed when [compile_from_files] is over. *)
Definition always_closes : Prop :=
  forall (P : Platform) image_paths output_path dpi w images w1,
    open_all image_paths w = (Ok images, w1) ->
    handles images ## open_fps (compile_from_files image_paths output_path dpi w).2.


(** * Properties *)

(** ** The monad *)

Lemma bind_ok {E A B} (c : M E A) (k : A -> M E B) w a w' :
  c w = (Ok a, w') -> bind c k w = k a w'.
Proof. intros Hc. unfold bind. by rewrite Hc. Qed.

Lemma bind_raise {E A B} (c : M E A) (k : A -> M E B) w e w' :
  c w = (Raise e, w') -> bind c k w = (Raise e, w').
Proof. intros Hc. unfold bind. by rewrite Hc. Qed.

Lemma bind_inv_ok {E A B} (c : M E A) (k : A -> M E B) w b w' :
  bind c k w = (Ok b, w') -> exists a w0, c w = (Ok a, w0) ∧ k a w0 = (Ok b, w').
Proof.
  unfold bind. destruct (c w) as [[a|e] w0]; [|discriminate]. intros Hk. eauto.
Qed.

(** ** pdf_compiler.py *)

Lemma getitem_alpha img :
  mode img = Mode_RGBA -> getitem (Image_split img) 3 = ret (alpha_band img).
Proof. intros Hm. unfold getitem, Image_split. rewrite Hm. reflexivity. Qed.

Lemma compile_step_rgb_page img rgb_images w :
  compile_step img rgb_images w = (Ok (rgb_images ++ [rgb_page img]), w).
Proof.
  unfold compile_step, rgb_page, paste_on_white.
  destruct (decide (mode img = Mode_RGBA)) as [Hm|Hm].
  - rewrite (getitem_alpha _ Hm). reflexivity.
  - destruct (decide (mode img ≠ Mode_RGB)); reflexivity.
Qed.

(** The conversion loop appends the page of every image, in order. *)
Lemma compile_loop images : forall rgb_images w,
  for_ images compile_step rgb_images w
  = (Ok (rgb_images ++ map rgb_page images), w).
Proof.
  induction images as [|img images IH]; intros acc w; simpl.
  - by rewrite app_nil_r.
  - rewrite (bind_ok _ _ _ _ _ (compile_step_rgb_page img acc w)).
    rewrite IH, <- app_assoc. reflexivity.
Qed.

(** What [compile] does on a non-empty list: one [Save] call, and either
    the document or an [OSError]. *)
(** *** Sleeping *)

Lemma time_sleep_ok `{Platform} seconds w :
  sleepable seconds -> time_sleep seconds w = (Ok tt, after_call w (Sleep seconds)).
Proof.
  destruct seconds as [q| |]; [|done..]. intros (Hpos & Hlim & Hsys).
  unfold time_sleep. rewrite Hlim, Hpos.
  assert (Qle_bool q sleep_band = true) as ->.
  { apply Qle_bool_iff. apply Qlt_le_weak.
    apply Qlt_le_trans with (y := sleep_limit); [|done].
    apply Qnot_le_lt. intros Hle. apply Qle_bool_iff in Hle. congruence. }
  assert (Qle_bool (- sleep_band) q = true) as ->.
  { apply Qle_bool_iff. apply Qle_bool_iff in Hpos.
    eapply Qle_trans; [|exact Hpos]. done. }
  cbn. by rewrite Hsys.
Qed.

(** A length between 0 and 31 days is slept on every platform. *)
Lemma sleepable_month `{Platform} (q : Q) :
  Qle_bool 0 q = true -> Qle_bool q month = true -> sleepable q.
Proof.
  intros Hpos Hmonth. split; [exact Hpos|]. split.
  - destruct (Qle_bool sleep_limit q) eqn:Hlim; [exfalso|reflexivity].
    apply Qle_bool_iff in Hlim, Hmonth.
    assert (sleep_limit <= month)%Q as Hle by (eapply Qle_trans; eauto).
    apply Qle_bool_iff in Hle. vm_compute in Hle. discriminate.
  - intros cs. by apply sleep_accepted_month.
Qed.

Lemma time_sleep_short `{Platform} (q : Q) w :
  Qle_bool 0 q = true -> Qle_bool q month = true ->
  time_sleep q w = (Ok tt, after_call w (Sleep q)).
Proof. intros Hpos Hmonth. by apply time_sleep_ok, sleepable_month. Qed.

Ltac sleep_short :=
  repeat (rewrite time_sleep_short by reflexivity; cbn -[time_sleep]).

Lemma rgb_page_size img : size (rgb_page img) = size img ∧ mode (rgb_page img) = Mode_RGB.
Proof.
  unfold rgb_page. destruct (decide (mode img = Mode_RGBA)); [done|].
  destruct (decide (mode img ≠ Mode_RGB)) as [|Hrgb]; [done|].
  by apply dec_stable in Hrgb.
Qed.

Lemma nonempty_not_empty img : nonempty img -> is_empty img = false.
Proof.
  intros [Hw Hh]. unfold is_empty. apply orb_false_iff. split; apply Z.eqb_neq; lia.
Qed.

Lemma rgb_page_not_empty img : nonempty img -> is_empty (rgb_page img) = false.
Proof.
  intros Hne. apply nonempty_not_empty. unfold nonempty, width, height in *.
  by rewrite (proj1 (rgb_page_size img)).
Qed.

(** The writer accepts pages that have pixels at a resolution that is
    not zero. *)
Lemma save_error_none (pages : list Image) resolution :
  Forall (fun page => is_empty page = false) pages ->
  Qeq_bool resolution 0 = false ->
  save_error pages resolution = None.
Proof.
  intros Hpages Hres. unfold save_error.
  destruct pages as [|first pages]; [done|].
  rewrite (Forall_inv Hpages), Hres.
  destruct (existsb is_empty (first :: pages)) eqn:Hex; [|done].
  apply existsb_exists in Hex as (page & Hin & Hempty).
  rewrite Forall_forall in Hpages.
  rewrite (Hpages page) in Hempty; [discriminate|]. by apply list_elem_of_In.
Qed.

Lemma save_error_none_pages images resolution :
  Forall nonempty images ->
  Qeq_bool resolution 0 = false ->
  save_error (map rgb_page images) resolution = None.
Proof.
  intros Himages Hres. apply save_error_none; [|done].
  apply Forall_fmap. eapply Forall_impl; [exact Himages|].
  intros img Himg. by apply rgb_page_not_empty.
Qed.

(** What [compile] does on a non-empty list: one [Save] call, and either
    the document, or the exception of the writer, or the [OSError] of a
    path that cannot be written. *)
Lemma compile_cons `{Platform} img images output_path dpi w :
  compile (img :: images) output_path dpi w
  = if writable output_path then
      match save_error (map rgb_page (img :: images)) dpi with
      | None =>
          (Ok tt, {| fs := <[output_path := PdfFile (map rgb_page (img :: images)) dpi]> (fs w);
                     open_fps := open_fps w;
                     calls := calls w ++ [Save output_path] |})
      | Some e =>
          (Raise e, {| fs := match fs w !! output_path with
                             | Some _ => <[output_path := OtherFile]> (fs w)
                             | None => fs w
                             end;
                       open_fps := open_fps w;
                       calls := calls w ++ [Save output_path] |})
      end
    else
      (Raise (OSError "cannot write output file"),
       {| fs := fs w; open_fps := open_fps w;
          calls := calls w ++ [Save output_path] |}).
Proof.
  unfold compile.
  rewrite (bind_ok _ _ _ _ _ (compile_loop (img :: images) [] w)).
  cbn [app map]. unfold bind at 1. cbn [getitem lookup list_lookup ret].
  destruct images as [|img' images]; cbn [length map bool_decide];
    unfold Image_save, bind, log; cbn [fst snd fs open_fps calls];
    destruct (writable output_path); reflexivity.
Qed.


(** The same at a resolution of 0, with an image that has pixels: the
    writer divides by the resolution. *)
Example compile_dpi_zero_raises :
  (compile (H := granting_platform) [rgb_1x1] "book.pdf" 0 empty_world).1
  = Raise (ZeroDivisionError "float division by zero").
Proof. reflexivity. Qed.


(** C4. [compile] on the empty list raises [ValueError] and leaves the
    world as it was: no file is written and no external call is made. *)
Theorem compile_empty_fails `{Platform} output_path dpi w :
  compile [] output_path dpi w = (Raise (ValueError "No images provided"), w).
Proof. reflexivity. Qed.


(** *** Transparency *)










(** ** capturer.py *)

(** The conversion of a frame either fails in [reshape] or gives an RGBA
    image, and it touches nothing. *)
Lemma cg_image_to_pil_cases cg w :
  (frame_consistent cg ∧
   exists frame, cg_image_to_pil cg w = (Ok frame, w) ∧ mode frame = Mode_RGBA ∧
                 size frame = (Z.min (cg_width cg) (cg_bytes_per_row cg `div` 4),
                               cg_height cg)) ∨
  (¬ frame_consistent cg ∧
   cg_image_to_pil cg w = (Raise (ValueError "cannot reshape array"), w)).
Proof.
  unfold cg_image_to_pil, frame_consistent.
  destruct (decide _) as [Hc|Hc].
  - left. split; [exact Hc|]. eexists. split; [reflexivity|]. done.
  - right. done.
Qed.

(** [resize] keeps the mode and gives the requested size, or fails: on a
    side outside the C [int], on a side below 1, or for lack of memory. *)
Lemma Image_resize_cases `{Platform} im sz filter w :
  (exists im', Image_resize im sz filter w = (Ok im', w) ∧
               mode im' = mode im ∧ size im' = sz ∧
               (size im ≠ sz -> (mode im = Mode_RGBA ∨ mode im = Mode_RGB) ->
                im' = {| mode := mode im; size := sz; data := resample filter im sz;
                         palette := palette im; fp := None |})) ∨
  (exists e, Image_resize im sz filter w = (Raise e, w) ∧ size im ≠ sz ∧
             (fits_int sz.1 && fits_int sz.2 = false ∨ sz.1 < 1 ∨ sz.2 < 1 ∨
              allocates sz = false)).
Proof.
  unfold Image_resize.
  destruct (decide (size im = sz)) as [Hs|Hs].
  - left. eexists. split; [reflexivity|]. simpl. done.
  - destruct (fits_int sz.1) eqn:Hfit1; cbn [negb].
    2:{ right. eexists. split; [reflexivity|]. auto. }
    destruct (fits_int sz.2) eqn:Hfit2; cbn [negb].
    2:{ right. eexists. split; [reflexivity|]. split; [done|]. left.
        apply andb_false_r. }
    destruct (_ || _) eqn:Hb.
    { right. eexists. split; [reflexivity|]. split; [done|].
      apply orb_true_iff in Hb as [Hb|Hb]; apply Z.ltb_lt in Hb; auto. }
    destruct (allocates sz) eqn:Hmem; cbn [negb].
    2:{ right. eexists. split; [reflexivity|]. auto. }
    left. eexists. split; [reflexivity|]. simpl. repeat split; try done.
    intros _ [-> | ->]; reflexivity.
Qed.

Lemma fits_int_bounds n : 1 <= n <= INT_MAX -> fits_int n = true.
Proof.
  intros Hn. unfold fits_int. apply andb_true_iff.
  split; apply Z.leb_le; unfold INT_MAX in *; lia.
Qed.

(** [resize] returns when both sides are between 1 and the largest C
    [int] and the memory of the result can be allocated. *)
Lemma Image_resize_ok `{Platform} im (a b : Z) filter w :
  1 <= a <= INT_MAX -> 1 <= b <= INT_MAX -> allocates (a, b) = true ->
  exists im', Image_resize im (a, b) filter w = (Ok im', w) ∧
              mode im' = mode im ∧ size im' = (a, b) ∧
              (size im ≠ (a, b) -> (mode im = Mode_RGBA ∨ mode im = Mode_RGB) ->
               im' = {| mode := mode im; size := (a, b);
                        data := resample filter im (a, b);
                        palette := palette im; fp := None |}).
Proof.
  intros Ha Hb Hmem.
  destruct (Image_resize_cases im (a, b) filter w)
    as [Hok|(e & _ & _ & [Hfit|[Hlt|[Hlt|Hno]]])]; [exact Hok|exfalso..].
  - cbn [fst snd] in Hfit. rewrite !fits_int_bounds in Hfit by done. discriminate.
  - cbn [fst] in Hlt. lia.
  - cbn [snd] in Hlt. lia.
  - congruence.
Qed.

Lemma capture_region_unfold `{Platform} region w :
  capture_region region w
  = match window_image (calls w) (region_rect region) with
    | None =>
        (Raise (RuntimeError "Region capture failed. Check Screen Recording permission."),
         after_call w (WindowListCreateImage (region_rect region)))
    | Some cg =>
        bind (cg_image_to_pil cg)
          (fun image =>
             if bool_decide (width image ≠ region_width region)
                || bool_decide (height image ≠ region_height region)
             then Image_resize image (region_width region, region_height region) LANCZOS
             else ret image)
          (after_call w (WindowListCreateImage (region_rect region)))
    end.
Proof.
  unfold capture_region, CGWindowListCreateImage, bind at 1. simpl.
  fold (region_rect region).
  destruct (window_image _ _); reflexivity.
Qed.

Lemma size_test (image : Image) (rw rh : Z) :
  bool_decide (width image ≠ rw) || bool_decide (height image ≠ rh) = false
  <-> size image = (rw, rh).
Proof.
  unfold width, height. destruct (size image) as [a b]. simpl.
  rewrite orb_false_iff, !bool_decide_eq_false. split.
  - intros [Ha Hb]. apply dec_stable in Ha, Hb. congruence.
  - intros [= -> ->]. split; auto.
Qed.

(** C3. For every region, an image that [capture_region] returns has
    exactly the width and the height of the region, whatever the size of
    the frame the platform delivered; and it does return one whenever the
    platform delivers a frame, the sides of the region are between 1 and
    the largest C [int] (2147483647: beyond it Pillow's [resize] raises
    [OverflowError]) and the memory of an image of that size can be
    allocated: the converted frame itself when its size is the requested
    one, and otherwise the frame resampled to the requested size with the
    LANCZOS filter. *)
Theorem capture_region_exact_size `{P : Platform} region w :
  (forall image w', capture_region region w = (Ok image, w') ->
     width image = region_width region ∧ height image = region_height region) ∧
  (forall cg, window_image (calls w) (region_rect region) = Some cg ->
     frame_consistent cg ->
     1 <= region_width region <= INT_MAX ->
     1 <= region_height region <= INT_MAX ->
     allocates (region_width region, region_height region) = true ->
     exists image frame,
       capture_region region w
         = (Ok image, after_call w (WindowListCreateImage (region_rect region))) ∧
       cg_image_to_pil cg w = (Ok frame, w) ∧
       size image = (region_width region, region_height region) ∧
       (size frame = (region_width region, region_height region) -> image = frame) ∧
       (size frame ≠ (region_width region, region_height region) ->
        image = resized_to P region frame)).
Proof.
  rewrite capture_region_unfold. split.
  - intros image w'.
    destruct (window_image _ _) as [cg|]; [|discriminate].
    destruct (cg_image_to_pil_cases cg (after_call w (WindowListCreateImage (region_rect region))))
      as [(_ & frame & Hf & _)|(_ & Hf)].
    + rewrite (bind_ok _ _ _ _ _ Hf).
      destruct (_ || _) eqn:Hb.
      * destruct (Image_resize_cases frame (region_width region, region_height region)
                    LANCZOS (after_call w (WindowListCreateImage (region_rect region))))
          as [(im' & -> & _ & Hs & _)|(e & -> & _)]; [|discriminate].
        intros [= <- <-]. unfold width, height. by rewrite Hs.
      * apply size_test in Hb. intros [= <- <-]. unfold width, height. by rewrite Hb.
    + rewrite (bind_raise _ _ _ _ _ Hf). discriminate.
  - intros cg -> Hc Hw Hh Hmem.
    destruct (cg_image_to_pil_cases cg (after_call w (WindowListCreateImage (region_rect region))))
      as [(_ & frame & Hf & Hm & _)|(Hn & _)]; [|done].
    destruct (cg_image_to_pil_cases cg w) as [(_ & frame' & Hf' & _)|(Hn & _)]; [|done].
    assert (frame' = frame) as ->.
    { unfold cg_image_to_pil in Hf, Hf'. destruct (decide _); [|done].
      unfold ret in *. congruence. }
    rewrite (bind_ok _ _ _ _ _ Hf).
    destruct (_ || _) eqn:Hb.
    + destruct (Image_resize_ok frame (region_width region) (region_height region)
                  LANCZOS (after_call w (WindowListCreateImage (region_rect region)))
                  Hw Hh Hmem)
        as (im' & -> & _ & Hs & Hd).
      assert (size frame ≠ (region_width region, region_height region)) as Hne.
      { intros Heq. apply size_test in Heq. congruence. }
      exists im', frame. repeat split; try done.
      intros _. unfold resized_to. apply Hd; auto.
    + apply size_test in Hb. exists frame, frame. repeat split; done.
Qed.

Lemma capture_region_exact_size_witness :
  exists image frame,
    capture_region (H := granting_platform) region_100 empty_world
      = (Ok image, after_call empty_world (WindowListCreateImage (region_rect region_100))) ∧
    cg_image_to_pil frame_2x1 empty_world = (Ok frame, empty_world) ∧
    size image = (1, 1) ∧
    (size frame = (1, 1) -> image = frame) ∧
    (size frame ≠ (1, 1) -> image = resized_to granting_platform region_100 frame).
Proof.
  apply (proj2 (capture_region_exact_size (P := granting_platform) region_100 empty_world)
               frame_2x1).
  - reflexivity.
  - reflexivity.
  - vm_compute. split; discriminate.
  - vm_compute. split; discriminate.
  - reflexivity.
Defined.

Lemma capture_full_screen_unfold `{Platform} w :
  capture_full_screen w
  = match window_image (calls w) CGRectInfinite with
    | None =>
        (Raise (RuntimeError
           ("Screen capture failed. Please ensure Screen Recording permission is granted "
            +:+ "in System Preferences > Privacy & Security > Screen Recording")),
         after_call w (WindowListCreateImage CGRectInfinite))
    | Some cg =>
        cg_image_to_pil cg (after_call w (WindowListCreateImage CGRectInfinite))
    end.
Proof.
  unfold capture_full_screen, CGWindowListCreateImage, bind. simpl.
  destruct (window_image _ _); reflexivity.
Qed.

Lemma capture_full_screen_mode `{Platform} w image w' :
  capture_full_screen w = (Ok image, w') -> mode image = Mode_RGBA.
Proof.
  rewrite capture_full_screen_unfold.
  destruct (window_image _ _) as [cg|]; [|discriminate].
  destruct (cg_image_to_pil_cases cg (after_call w (WindowListCreateImage CGRectInfinite)))
    as [(_ & frame & -> & Hm & _)|(_ & ->)]; [|discriminate].
  by intros [= <- <-].
Qed.

Lemma capture_region_mode `{Platform} region w image w' :
  capture_region region w = (Ok image, w') -> mode image = Mode_RGBA.
Proof.
  rewrite capture_region_unfold.
  destruct (window_image _ _) as [cg|]; [|discriminate].
  destruct (cg_image_to_pil_cases cg (after_call w (WindowListCreateImage (region_rect region))))
    as [(_ & frame & Hf & Hm & _)|(_ & Hf)].
  - rewrite (bind_ok _ _ _ _ _ Hf).
    destruct (_ || _).
    + destruct (Image_resize_cases frame (region_width region, region_height region)
                  LANCZOS (after_call w (WindowListCreateImage (region_rect region))))
        as [(im' & -> & Hm' & _)|(e & -> & _)]; [|discriminate].
      intros [= <- <-]. congruence.
    + by intros [= <- <-].
  - rewrite (bind_raise _ _ _ _ _ Hf). discriminate.
Qed.

(** C10. Every image that [capture_full_screen] or [capture_region]
    returns is in mode RGBA, so it has an alpha band, and the conversion
    loop of the compiler takes its first branch on it: the page is the
    white background with the image pasted through its alpha band. *)
Theorem captured_images_are_RGBA `{Platform} (region : option CaptureRegion) w image w' :
  match region with
  | Some region => capture_region region w
  | None => capture_full_screen w
  end = (Ok image, w') ->
  mode image = Mode_RGBA ∧
  has_alpha_channel (mode image) = true ∧
  forall rgb_images w2,
    compile_step image rgb_images w2 = (Ok (rgb_images ++ [paste_on_white image]), w2).
Proof.
  intros Hcap.
  assert (mode image = Mode_RGBA) as Hm.
  { destruct region; [eapply capture_region_mode|eapply capture_full_screen_mode]; eauto. }
  split; [exact Hm|]. split; [by rewrite Hm|].
  intros acc w2. rewrite compile_step_rgb_page. unfold rgb_page.
  by rewrite decide_True.
Qed.

Lemma captured_images_are_RGBA_witness :
  mode captured_1x1 = Mode_RGBA ∧
  has_alpha_channel (mode captured_1x1) = true ∧
  forall rgb_images w2,
    compile_step captured_1x1 rgb_images w2
    = (Ok (rgb_images ++ [paste_on_white captured_1x1]), w2).
Proof.
  apply (captured_images_are_RGBA (H := granting_platform) (Some region_100) empty_world
           captured_1x1
           (after_call empty_world (WindowListCreateImage (region_rect region_100)))).
  reflexivity.
Defined.

(** ** The [compile] command: sorting *)

Section sorting.
Context {A : Type} (key : A -> Z).

#[local] Instance key_lt_antisymm : AntiSymm (=) (key_lt key).
Proof. intros a b Hab Hba. unfold key_lt in *. lia. Qed.

Lemma insort_perm x (l : list A) : insort key Z.ltb x l ≡ₚ x :: l.
Proof.
  induction l as [|y l IH]; simpl; [done|].
  destruct (key x <? key y); [done|].
  rewrite IH. apply Permutation_swap.
Qed.

Lemma stable_sort_from_perm (l : list A) : forall sorted,
  fold_left (fun sorted x => insort key Z.ltb x sorted) l sorted ≡ₚ sorted ++ l.
Proof.
  induction l as [|x l IH]; intros sorted; simpl.
  - by rewrite app_nil_r.
  - rewrite IH, insort_perm. simpl. apply Permutation_middle.
Qed.

Lemma stable_sort_perm (l : list A) : stable_sort key Z.ltb l ≡ₚ l.
Proof. apply (stable_sort_from_perm l []). Qed.

(** Inserting a new key into a strictly sorted list keeps it strictly
    sorted. *)
Lemma insort_sorted x (l : list A) :
  StronglySorted (key_lt key) l ->
  Forall (fun y => key y ≠ key x) l ->
  StronglySorted (key_lt key) (insort key Z.ltb x l).
Proof.
  induction 1 as [|y l Hl IH Hy]; intros Hx; simpl.
  - repeat constructor.
  - apply Forall_cons in Hx as [Hyx Hx].
    destruct (key x <? key y) eqn:Hlt.
    + apply Z.ltb_lt in Hlt. constructor; [by constructor|].
      constructor; [exact Hlt|].
      eapply Forall_impl; [exact Hy|]. unfold key_lt. intros; lia.
    + apply Z.ltb_ge in Hlt. constructor; [by apply IH|].
      rewrite insort_perm. constructor; [unfold key_lt; lia|exact Hy].
Qed.

Lemma stable_sort_from_sorted (l : list A) : forall sorted,
  StronglySorted (key_lt key) sorted ->
  NoDup (map key (sorted ++ l)) ->
  StronglySorted (key_lt key) (fold_left (fun sorted x => insort key Z.ltb x sorted) l sorted).
Proof.
  induction l as [|x l IH]; intros sorted Hs Hnd; simpl; [done|].
  apply IH.
  - apply insort_sorted; [done|].
    rewrite map_app in Hnd. simpl in Hnd.
    apply NoDup_app in Hnd as (_ & Hdisj & _).
    apply Forall_forall. intros y Hy Heq.
    apply (Hdisj (key y)); [by apply list_elem_of_fmap_2|].
    rewrite Heq. left.
  - assert (map key (insort key Z.ltb x sorted ++ l) ≡ₚ map key (sorted ++ x :: l))
      as Hperm.
    { apply Permutation_map. rewrite insort_perm. simpl. apply Permutation_middle. }
    by rewrite Hperm.
Qed.

Lemma stable_sort_sorted (l : list A) :
  NoDup (map key l) -> StronglySorted (key_lt key) (stable_sort key Z.ltb l).
Proof. intros Hnd. apply stable_sort_from_sorted; [constructor|exact Hnd]. Qed.

(** With distinct keys the result of the sort depends on the set of
    elements only, not on the order they come in. *)
Lemma stable_sort_order_independent (l1 l2 : list A) :
  l1 ≡ₚ l2 -> NoDup (map key l1) ->
  stable_sort key Z.ltb l1 = stable_sort key Z.ltb l2.
Proof.
  intros Hp Hnd.
  apply (StronglySorted_unique (key_lt key)).
  - by apply stable_sort_sorted.
  - apply stable_sort_sorted.
    assert (map key l2 ≡ₚ map key l1) as Hperm by (by apply Permutation_map).
    by rewrite Hperm.
  - by rewrite !stable_sort_perm.
Qed.
End sorting.

Section sort_any.
Context {A K : Type} (key : A -> K) (lt : K -> K -> bool).

Lemma insort_perm_any x (l : list A) : insort key lt x l ≡ₚ x :: l.
Proof.
  induction l as [|y l IH]; simpl; [done|].
  destruct (lt (key x) (key y)); [done|].
  rewrite IH. apply Permutation_swap.
Qed.

Lemma stable_sort_from_perm_any (l : list A) : forall sorted,
  fold_left (fun sorted x => insort key lt x sorted) l sorted ≡ₚ sorted ++ l.
Proof.
  induction l as [|x l IH]; intros sorted; simpl.
  - by rewrite app_nil_r.
  - rewrite IH, insort_perm_any. simpl. apply Permutation_middle.
Qed.

Lemma list_sort_perm reverse (l : list A) : list_sort key lt reverse l ≡ₚ l.
Proof.
  unfold list_sort, stable_sort. destruct reverse.
  - rewrite <- Permutation_rev, (stable_sort_from_perm_any (rev l) []). simpl.
    symmetry. apply Permutation_rev.
  - apply (stable_sort_from_perm_any l []).
Qed.
End sort_any.

Lemma sort_files_perm `{Platform} sort (image_files : list Path) :
  (sort_files sort image_files).1 ≡ₚ image_files.
Proof.
  unfold sort_files.
  destruct (decide (sort = "time")); [apply list_sort_perm|].
  destruct (decide (sort = "time-desc")); apply list_sort_perm.
Qed.

(** The keys of the sort are computed when every listed path resolves;
    the sort by name asks for none. *)
Lemma sort_keys_ok `{Platform} sort (image_files : list Path) w :
  (sort = "time" ∨ sort = "time-desc" ->
   Forall (fun p => is_Some (fs w !! Path_str p)) image_files) ->
  sort_keys sort image_files w = (Ok tt, w).
Proof.
  unfold sort_keys. destruct (decide _) as [Htime|_]; [|done].
  intros Hall. specialize (Hall Htime).
  induction Hall as [|p files [file Hp] _ IH]; [done|].
  simpl. unfold bind at 1. unfold bind at 1, os_path_getmtime. by rewrite Hp.
Qed.

(** With a sort by time, a listed path that does not resolve (a dangling
    symbolic link) ends the command before the output is opened. *)
Lemma sort_keys_fail `{Platform} sort (image_files : list Path) w :
  sort = "time" ∨ sort = "time-desc" ->
  Exists (fun p => fs w !! Path_str p = None) image_files ->
  sort_keys sort image_files w = (Raise (OSError "No such file or directory"), w).
Proof.
  intros Htime Hex. unfold sort_keys. rewrite decide_True by done.
  induction image_files as [|p files IH]; [by inversion Hex|].
  simpl. unfold bind at 1. unfold bind at 1, os_path_getmtime.
  destruct (fs w !! Path_str p) eqn:Hp; [|done].
  apply Exists_cons in Hex as [Hbad|Hex]; [congruence|]. by apply IH.
Qed.

Lemma sort_block_ok `{Platform} sort (image_files : list Path) w :
  (sort = "time" ∨ sort = "time-desc" ->
   Forall (fun p => is_Some (fs w !! Path_str p)) image_files) ->
  sort_block sort image_files w = (Ok (sort_files sort image_files), w).
Proof.
  intros Hresolve. unfold sort_block.
  by rewrite (bind_ok _ _ _ _ _ (sort_keys_ok sort image_files w Hresolve)).
Qed.

Lemma rev_reverse_eq {A} (l : list A) : rev l = reverse l.
Proof. apply rev_alt. Qed.

(** C6. For any two listings of the same set of files whose modification
    times, as [os.path.getmtime] returns them, are pairwise distinct, the
    order of [--sort time] is exactly the reverse of the order of
    [--sort time-desc]; each of the two is an ordering of the listed
    files, every file once: oldest first with [--sort time], newest first
    with [--sort time-desc]; and the sort block of the command produces
    these orders whenever every listed path resolves. *)
Theorem sort_time_reverses_time_desc `{Platform} (files1 files2 : list Path) :
  files1 ≡ₚ files2 ->
  NoDup (map getmtime files1) ->
  (sort_files "time" files1).1 = rev (sort_files "time-desc" files2).1 ∧
  (sort_files "time" files1).1 ≡ₚ files1 ∧
  (sort_files "time-desc" files2).1 ≡ₚ files2 ∧
  Sorted (fun a b => getmtime a < getmtime b) (sort_files "time" files1).1 ∧
  Sorted (fun a b => getmtime b < getmtime a) (sort_files "time-desc" files2).1 ∧
  forall w, Forall (fun p => is_Some (fs w !! Path_str p)) files1 ->
            sort_block "time" files1 w = (Ok (sort_files "time" files1), w) ∧
            sort_block "time-desc" files2 w = (Ok (sort_files "time-desc" files2), w).
Proof.
  intros Hp Hnd.
  assert ((sort_files "time" files1).1 = rev (sort_files "time-desc" files2).1) as Hrev.
  { unfold sort_files. simpl. unfold list_sort.
    rewrite rev_involutive.
    apply stable_sort_order_independent; [|exact Hnd].
    rewrite Hp. apply Permutation_rev. }
  assert (Sorted (fun a b => getmtime a < getmtime b) (sort_files "time" files1).1)
    as Hsorted.
  { apply StronglySorted_Sorted. unfold sort_files. simpl. unfold list_sort.
    by apply (stable_sort_sorted getmtime). }
  split; [exact Hrev|].
  split; [apply sort_files_perm|].
  split; [apply sort_files_perm|].
  split; [exact Hsorted|].
  split.
  - rewrite Hrev, rev_reverse_eq in Hsorted.
    apply (Sorted_reverse (fun a b => getmtime a < getmtime b)) in Hsorted.
    by rewrite reverse_involutive in Hsorted.
  - intros w Hresolve. split; apply sort_block_ok; intros _; [done|].
    by rewrite <- Hp.
Qed.

Lemma sort_time_reverses_time_desc_witness :
  (sort_files (H := granting_platform) "time" [["a"; "b"; "c"]; ["x"]; ["p"; "q"]]).1
    = rev (sort_files (H := granting_platform) "time-desc" [["p"; "q"]; ["a"; "b"; "c"]; ["x"]]).1 ∧
  (sort_files (H := granting_platform) "time" [["a"; "b"; "c"]; ["x"]; ["p"; "q"]]).1
    ≡ₚ [["a"; "b"; "c"]; ["x"]; ["p"; "q"]] ∧
  (sort_files (H := granting_platform) "time-desc" [["p"; "q"]; ["a"; "b"; "c"]; ["x"]]).1
    ≡ₚ [["p"; "q"]; ["a"; "b"; "c"]; ["x"]] ∧
  Sorted (fun a b => @getmtime granting_platform a < @getmtime granting_platform b)
         (sort_files (H := granting_platform) "time" [["a"; "b"; "c"]; ["x"]; ["p"; "q"]]).1 ∧
  Sorted (fun a b => @getmtime granting_platform b < @getmtime granting_platform a)
         (sort_files (H := granting_platform) "time-desc" [["p"; "q"]; ["a"; "b"; "c"]; ["x"]]).1 ∧
  forall w, Forall (fun p => is_Some (fs w !! Path_str p))
                   ([["a"; "b"; "c"]; ["x"]; ["p"; "q"]] : list Path) ->
            sort_block (H := granting_platform) "time" [["a"; "b"; "c"]; ["x"]; ["p"; "q"]] w
              = (Ok (sort_files (H := granting_platform) "time"
                       [["a"; "b"; "c"]; ["x"]; ["p"; "q"]]), w) ∧
            sort_block (H := granting_platform) "time-desc" [["p"; "q"]; ["a"; "b"; "c"]; ["x"]] w
              = (Ok (sort_files (H := granting_platform) "time-desc"
                       [["p"; "q"]; ["a"; "b"; "c"]; ["x"]]), w).
Proof.
  apply (sort_time_reverses_time_desc (H := granting_platform)).
  - symmetry. apply (Permutation_cons_append [["a"; "b"; "c"]; ["x"]] ["p"; "q"]).
  - apply (bool_decide_unpack _). vm_compute. exact I.
Defined.

(** ** navigator.py *)

(** The one check of the navigator: a refused key-down event. *)
Lemma press_key_down_refused `{Platform} key_code modifiers w :
  keyboard_event_granted (calls w) (key_value key_code) true = false ->
  exists msg,
    press_key key_code modifiers w
    = (Raise (RuntimeError msg),
       after_call w (CreateKeyboardEvent (key_value key_code) true)).
Proof.
  intros Hno. unfold press_key, bind, CGEventCreateKeyboardEvent. simpl.
  rewrite Hno. eexists. reflexivity.
Qed.

(** A granted key-down event is enough for [press_key] to return: the
    key-up event is posted as it comes, also when it is [None]. *)
Lemma press_key_ignores_key_up `{Platform} key_code modifiers w :
  keyboard_event_granted (calls w) (key_value key_code) true = true ->
  exists event_up w',
    press_key key_code modifiers w = (Ok tt, w') ∧
    calls w' = calls w ++
      [CreateKeyboardEvent (key_value key_code) true;
       Post (if bool_decide (modifiers ≠ 0)
             then Some (KeyboardEvent (key_value key_code) true modifiers)
             else Some (KeyboardEvent (key_value key_code) true 0));
       Sleep 0.05;
       CreateKeyboardEvent (key_value key_code) false;
       Post event_up;
       Sleep 0.05] ∧
    fs w' = fs w ∧ open_fps w' = open_fps w.
Proof.
  intros Hyes. unfold press_key, bind, CGEventCreateKeyboardEvent. simpl.
  rewrite Hyes. simpl. sleep_short.
  eexists _, _. split; [reflexivity|]. simpl.
  rewrite <- !app_assoc. simpl.
  split; [reflexivity|done].
Qed.

(** [click] has no failing path: whatever the platform answers, it posts
    what it got and returns. *)
Lemma click_never_raises `{Platform} px py w :
  exists move_event down_event up_event w',
    click px py w = (Ok tt, w') ∧
    calls w' = calls w ++
      [CreateMouseEvent kCGEventMouseMoved px py; Post move_event; Sleep 0.05;
       CreateMouseEvent kCGEventLeftMouseDown px py; Post down_event; Sleep 0.05;
       CreateMouseEvent kCGEventLeftMouseUp px py; Post up_event; Sleep 0.1] ∧
    fs w' = fs w ∧ open_fps w' = open_fps w.
Proof.
  unfold click, bind, CGEventCreateMouseEvent. simpl. sleep_short.
  eexists _, _, _, _. split; [reflexivity|]. simpl.
  rewrite <- !app_assoc. done.
Qed.

(** C8, at the failing input: on a platform that refuses every event,
    [click(100, 100)] posts three missing events and returns normally. *)
Theorem click_refused_returns_normally :
  click (H := refusing_platform) 100 100 empty_world
  = (Ok tt,
     {| fs := ∅; open_fps := ∅;
        calls := [CreateMouseEvent kCGEventMouseMoved 100 100; Post None; Sleep 0.05;
                  CreateMouseEvent kCGEventLeftMouseDown 100 100; Post None; Sleep 0.05;
                  CreateMouseEvent kCGEventLeftMouseUp 100 100; Post None; Sleep 0.1] |}).
Proof. reflexivity. Qed.

(** On a platform that refuses key-up events only, [press_key] posts the
    key-down event and a missing key-up event and returns normally. *)
Lemma press_key_up_refused_returns_normally :
  press_key (H := key_up_refusing_platform) RIGHT_ARROW 0 empty_world
  = (Ok tt,
     {| fs := ∅; open_fps := ∅;
        calls := [CreateKeyboardEvent 0x7C true;
                  Post (Some (KeyboardEvent 0x7C true 0)); Sleep 0.05;
                  CreateKeyboardEvent 0x7C false; Post None; Sleep 0.05] |}).
Proof. reflexivity. Qed.

(** ** [compile_from_files] *)

(** [compile] leaves the open file handles alone. *)
Lemma compile_open_fps `{Platform} images output_path dpi w r w' :
  compile images output_path dpi w = (r, w') -> open_fps w' = open_fps w.
Proof.
  destruct images as [|img images].
  - by intros [= <- <-].
  - rewrite compile_cons. destruct (writable output_path); [|by intros [= <- <-]].
    destruct (save_error _ _); by intros [= <- <-].
Qed.

(** Opening: when every path holds an image, all of them are decoded, in
    the order of the paths, each one bound to a handle that was not open
    before. *)
Lemma open_all_ok (image_paths : list string) : forall w,
  Forall (fun path => exists im, fs w !! path = Some (ImageFile im)) image_paths ->
  exists images w1,
    open_all image_paths w = (Ok images, w1) ∧
    fs w1 = fs w ∧
    calls w1 = calls w ++ map Open image_paths ∧
    Forall2 (decoded_from (fs w)) image_paths images ∧
    open_fps w1 = open_fps w ∪ handles images ∧
    handles images ## open_fps w.
Proof.
  induction image_paths as [|path rest IH]; intros w Hall.
  - exists [], w. simpl. rewrite app_nil_r.
    repeat split; [constructor|unfold handles; simpl; set_solver..].
  - apply Forall_cons in Hall as [[im Him] Hrest].
    set (h := fresh (open_fps w)).
    set (w0 := {| fs := fs w; open_fps := {[h]} ∪ open_fps w;
                  calls := calls w ++ [Open path] |}).
    destruct (IH w0 Hrest) as (images & w1 & Hopen & Hfs & Hcalls & Hdec & Hfps & Hdisj).
    eexists (_ :: images), w1.
    split.
    { simpl. unfold bind at 1. unfold Image_open, bind at 1, log. simpl.
      rewrite Him. fold h. fold w0. unfold bind. rewrite Hopen. reflexivity. }
    split; [exact Hfs|].
    split; [rewrite Hcalls; simpl; by rewrite <- app_assoc|].
    split; [constructor; [by exists im, h|exact Hdec]|].
    assert (h ∉ open_fps w) as Hfresh by apply is_fresh.
    unfold handles in *. simpl in *.
    split; [rewrite Hfps; set_solver|set_solver].
Qed.

Lemma Image_close_eq img w :
  Image_close img w
  = (Ok tt, {| fs := fs w;
               open_fps := match fp img with
                           | Some h => open_fps w ∖ {[h]}
                           | None => open_fps w
                           end;
               calls := calls w ++ [Close (fp img)] |}).
Proof. unfold Image_close, bind, log. simpl. by destruct (fp img). Qed.

(** Closing: every handle of the images is released. *)
Lemma close_all (images : list Image) : forall w,
  exists w',
    for_ images (fun img _ => Image_close img) tt w = (Ok tt, w') ∧
    fs w' = fs w ∧
    calls w' = calls w ++ map (fun img => Close (fp img)) images ∧
    open_fps w' = open_fps w ∖ handles images.
Proof.
  induction images as [|img images IH]; intros w.
  - exists w. simpl. rewrite app_nil_r. unfold handles. simpl.
    repeat split. set_solver.
  - simpl. rewrite (bind_ok _ _ _ _ _ (Image_close_eq img w)).
    edestruct IH as (w' & Hrun & Hfs & Hcalls & Hfps).
    exists w'. split; [exact Hrun|]. simpl in *. split; [exact Hfs|].
    split; [rewrite Hcalls; by rewrite <- app_assoc|].
    rewrite Hfps. unfold handles. simpl.
    destruct (fp img) as [h|]; simpl; set_solver.
Qed.

(** What [compile_from_files] does when every path holds an image: it
    decodes the images in the order of the paths and does what [compile]
    does on that list.  If [compile] returns, it returns with the same
    file system, after one [close] per image, and every handle it opened
    is released (the open handles are the ones that were open before the
    call).  If [compile] fails, it fails with the same exception in the
    same world, and every handle it opened is still open. *)
Lemma compile_from_files_delegates `{Platform} image_paths output_path dpi w :
  Forall (fun path => exists im, fs w !! path = Some (ImageFile im)) image_paths ->
  exists images w1,
    open_all image_paths w = (Ok images, w1) ∧
    Forall2 (decoded_from (fs w)) image_paths images ∧
    match compile images output_path dpi w1 with
    | (Ok _, w2) =>
        exists w3,
          compile_from_files image_paths output_path dpi w = (Ok tt, w3) ∧
          fs w3 = fs w2 ∧
          calls w3 = calls w2 ++ map (fun img => Close (fp img)) images ∧
          open_fps w3 = open_fps w ∧
          handles images ## open_fps w3
    | (Raise e, w2) =>
        compile_from_files image_paths output_path dpi w = (Raise e, w2) ∧
        open_fps w2 = open_fps w ∪ handles images
    end.
Proof.
  intros Hall.
  destruct (open_all_ok image_paths w Hall)
    as (images & w1 & Hopen & Hfs & Hcalls & Hdec & Hfps & Hdisj).
  exists images, w1. split; [exact Hopen|]. split; [exact Hdec|].
  unfold compile_from_files. rewrite (bind_ok _ _ _ _ _ Hopen).
  destruct (compile images output_path dpi w1) as [[[]|e] w2] eqn:Hc.
  - rewrite (bind_ok _ _ _ _ _ Hc).
    destruct (close_all images w2) as (w3 & Hclose & Hfs3 & Hcalls3 & Hfps3).
    exists w3. split; [exact Hclose|]. split; [exact Hfs3|]. split; [exact Hcalls3|].
    apply compile_open_fps in Hc.
    rewrite Hfps3, Hc, Hfps. split; set_solver.
  - rewrite (bind_raise _ _ _ _ _ Hc). split; [done|].
    apply compile_open_fps in Hc. by rewrite Hc.
Qed.

Lemma compile_from_files_delegates_witness :
  exists images w1,
    open_all ["p1.png"; "p2.png"]%string two_images = (Ok images, w1) ∧
    Forall2 (decoded_from (fs two_images)) ["p1.png"; "p2.png"]%string images ∧
    match compile (H := granting_platform) images "book.pdf" 150 w1 with
    | (Ok _, w2) =>
        exists w3,
          compile_from_files (H := granting_platform)
            ["p1.png"; "p2.png"]%string "book.pdf" 150 two_images = (Ok tt, w3) ∧
          fs w3 = fs w2 ∧
          calls w3 = calls w2 ++ map (fun img => Close (fp img)) images ∧
          open_fps w3 = open_fps two_images ∧
          handles images ## open_fps w3
    | (Raise e, w2) =>
        compile_from_files (H := granting_platform)
          ["p1.png"; "p2.png"]%string "book.pdf" 150 two_images = (Raise e, w2) ∧
        open_fps w2 = open_fps two_images ∪ handles images
    end.
Proof.
  apply (compile_from_files_delegates (H := granting_platform)
           ["p1.png"; "p2.png"]%string "book.pdf" 150 two_images).
  repeat constructor.
  - exists rgba_1x1. reflexivity.
  - exists la_1x1. reflexivity.
Defined.

(** C9, at the failing input: two image files and an output path that
    cannot be written.  Both images are opened, [compile] raises the
    [OSError] of the writer, the exception leaves [compile_from_files]
    before its closing loop: no [close] call is made and the two handles
    it opened stay open. *)
Theorem compile_from_files_failure_closes_nothing :
  compile_from_files (H := read_only_platform)
    ["p1.png"; "p2.png"]%string "book.pdf" 150 two_images
  = (Raise (OSError "cannot write output file"),
     {| fs := fs two_images;
        open_fps := {[0%nat; 1%nat]};
        calls := [Open "p1.png"; Open "p2.png"; Save "book.pdf"] |}).
Proof. vm_compute. reflexivity. Qed.

(** C9, against the claim as the specification words it. *)
Lemma compile_from_files_not_always_closing : ¬ always_closes.
Proof.
  intros Hclaim.
  specialize (Hclaim read_only_platform ["p1.png"; "p2.png"]%string "book.pdf"%string
                150%Q two_images).
  edestruct (open_all_ok ["p1.png"; "p2.png"]%string two_images)
    as (images & w1 & Hopen & _ & _ & Hdec & _ & _).
  { repeat constructor; [by exists rgba_1x1|by exists la_1x1]. }
  specialize (Hclaim images w1 Hopen).
  vm_compute in Hopen. injection Hopen as <- <-.
  apply (Hclaim 0%nat); vm_compute; reflexivity.
Qed.

(** ** cli.py: the capture loop *)

Lemma cg_image_to_pil_ok cg w :
  frame_consistent cg -> cg_image_to_pil cg w = (Ok (frame_image cg), w).
Proof.
  intros Hc. unfold cg_image_to_pil. rewrite decide_True by exact Hc. reflexivity.
Qed.

(** [resize] gives an image with pixels. *)
Lemma Image_resize_nonempty `{Platform} im sz filter w im' w' :
  Image_resize im sz filter w = (Ok im', w') -> nonempty im -> nonempty im'.
Proof.
  unfold Image_resize, nonempty, width, height.
  destruct (decide (size im = sz)) as [Hs|Hs]; [by intros [= <- <-]|].
  destruct (negb _); [discriminate|].
  destruct (negb _); [discriminate|].
  destruct (_ || _) eqn:Hb; [discriminate|].
  destruct (negb _); [discriminate|].
  intros [= <- <-] _. cbn [size].
  apply orb_false_iff in Hb as [Ha Hb]. apply Z.ltb_ge in Ha, Hb. done.
Qed.

(** Every captured image has pixels: the platform delivers no empty
    frame, and [resize] gives no empty image. *)
Lemma capture_nonempty `{Platform} (region : option CaptureRegion) w image w' :
  match region with
  | Some region => capture_region region
  | None => capture_full_screen
  end w = (Ok image, w') ->
  nonempty image.
Proof.
  assert (forall cs rect cg w0 frame w1,
            window_image cs rect = Some cg ->
            cg_image_to_pil cg w0 = (Ok frame, w1) -> nonempty frame) as Hframe.
  { intros cs rect cg w0 frame w1 Hcg Hpil.
    apply window_image_valid in Hcg as (Hw & Hh & Hrow).
    destruct (cg_image_to_pil_cases cg w0) as [(_ & frame' & Hf & _ & Hs)|(_ & Hf)];
      rewrite Hf in Hpil; [|discriminate].
    injection Hpil as <- <-. unfold nonempty, width, height. rewrite Hs. cbn [fst snd]. lia. }
  destruct region as [r|].
  - rewrite capture_region_unfold.
    destruct (window_image _ _) as [cg|] eqn:Hcg; [|discriminate].
    destruct (cg_image_to_pil cg (after_call w (WindowListCreateImage (region_rect r))))
      as [[frame|e] w1] eqn:Hpil.
    2:{ rewrite (bind_raise _ _ _ _ _ Hpil). discriminate. }
    rewrite (bind_ok _ _ _ _ _ Hpil).
    pose proof (Hframe _ _ _ _ _ _ Hcg Hpil) as Hne.
    destruct (_ || _).
    + intros Hres. by eapply Image_resize_nonempty.
    + by intros [= <- <-].
  - rewrite capture_full_screen_unfold.
    destruct (window_image _ _) as [cg|] eqn:Hcg; [|discriminate].
    intros Hpil. by eapply Hframe.
Qed.





(** *** Counting calls *)

Lemma count_app f cs1 cs2 : count f (cs1 ++ cs2) = count f cs1 + count f cs2.
Proof. unfold count. rewrite filter_app, length_app. lia. Qed.



Lemma filter_all_Z (f : Z -> Prop) `{!forall i, Decision (f i)} (l : list Z) :
  Forall f l -> filter f l = l.
Proof.
  induction 1 as [|i l Hi _ IH]; [done|].
  by rewrite filter_cons, decide_True, IH.
Qed.

Lemma filter_not_last (n : Z) :
  1 <= n -> length (filter (fun i => i < n - 1) (seqZ 0 n)) = Z.to_nat (n - 1).
Proof.
  intros Hn.
  assert (seqZ 0 n = seqZ 0 (n - 1) ++ [n - 1]) as ->.
  { replace (seqZ 0 n) with (seqZ 0 ((n - 1) + 1)) by (f_equal; lia).
    rewrite seqZ_app by lia. reflexivity. }
  rewrite filter_app, length_app.
  rewrite filter_cons, decide_False by lia. rewrite filter_nil. simpl.
  rewrite filter_all_Z, length_seqZ; [lia|].
  apply Forall_forall. intros i Hi. apply elem_of_seqZ in Hi. lia.
Qed.




Lemma granting_platform_sleepable (q : Q) :
  Qle_bool 0 q = true -> Qle_bool sleep_limit q = false ->
  sleepable (H := granting_platform) q.
Proof. intros Hpos Hlim. split; [exact Hpos|]. split; [exact Hlim|reflexivity]. Defined.


(** ** cli.py: failures *)

(** The pattern of both capture commands: the command returns exactly
    when the body returns; an exception of the body becomes one message
    on the error stream and exit status 1, and nothing is run after it. *)
Lemma try_report_and_exit {A} (body : M Exception A) w :
  match body w with
  | (Ok a, w1) => try_except body report_and_exit w = (Ok a, w1)
  | (Raise e, w1) =>
      try_except body report_and_exit w
      = (Raise (Exit 1), after_call w1 (Echo Stderr ("Error: " +:+ str e)))
  end.
Proof. unfold try_except. destruct (body w) as [[a|e] w1]; reflexivity. Qed.

(** When the body of [capture_book] returns, its last call is the
    confirmation message. *)
Lemma capture_book_body_done `{Platform} page_count output_path region delay w u w1 :
  capture_book_body page_count output_path region delay w = (Ok u, w1) ->
  last (calls w1) = Some (Echo Stdout ("Done! Created " +:+ output_path)).
Proof.
  unfold capture_book_body, bind.
  destruct (for_ _ _ _ w) as [[images|e] w0]; [|discriminate].
  unfold echo at 1, log at 1.
  destruct (compile _ _ _ _) as [[[]|e] w2]; [|discriminate].
  intros [= <- <-]. simpl. apply last_snoc.
Qed.

(** When the body of [capture_with_button] returns, its last calls are
    the confirmation messages. *)
Lemma capture_with_button_body_done `{Platform} page_count capture_button delay
    capture_delay confirm_button confirm_delay w u w1 :
  capture_with_button_body page_count capture_button delay capture_delay
                           confirm_button confirm_delay w = (Ok u, w1) ->
  exists cs,
    calls w1 = cs ++
      [Echo Stdout "";
       Echo Stdout ("Done! Captured " +:+ pretty page_count +:+ " pages.");
       Echo Stdout "Check your capture folder for the saved images.";
       Echo Stdout "You can use 'capture-pdf compile' to combine them into PDF."].
Proof.
  unfold capture_with_button_body. intros Hb.
  do 8 (apply bind_inv_ok in Hb as (? & ? & _ & Hb)).
  unfold bind, echo, log in Hb. simpl in Hb. injection Hb as _ <-. simpl.
  rewrite <- !app_assoc. eexists. reflexivity.
Qed.

(** C7. In both capture commands an exception raised by the body
    (capture, navigation or compilation) ends the run: the command leaves
    through [sys.exit(1)], so the exit status is 1, the only call made
    after the failing one is the message "Error: ..." on the error stream,
    and nothing is tried again.  When the body returns, the command
    returns, the exit status is 0 and the last calls are the confirmation
    messages. *)
Theorem exceptions_exit_with_status_1 `{Platform} page_count output_path region delay
    capture_button capture_delay confirm_button confirm_delay w :
  match capture_book_body page_count output_path region delay w with
  | (Ok _, w1) =>
      capture_book page_count output_path region delay w = (Ok tt, w1) ∧
      exit_status (capture_book page_count output_path region delay w).1 = 0 ∧
      last (calls w1) = Some (Echo Stdout ("Done! Created " +:+ output_path))
  | (Raise e, w1) =>
      capture_book page_count output_path region delay w
      = (Raise (Exit 1), after_call w1 (Echo Stderr ("Error: " +:+ str e))) ∧
      exit_status (capture_book page_count output_path region delay w).1 = 1
  end ∧
  match capture_with_button_body page_count capture_button delay capture_delay
                                 confirm_button confirm_delay w with
  | (Ok _, w1) =>
      capture_with_button page_count capture_button delay capture_delay
                          confirm_button confirm_delay w = (Ok tt, w1) ∧
      exit_status (capture_with_button page_count capture_button delay capture_delay
                                       confirm_button confirm_delay w).1 = 0 ∧
      exists cs,
        calls w1 = cs ++
          [Echo Stdout "";
           Echo Stdout ("Done! Captured " +:+ pretty page_count +:+ " pages.");
           Echo Stdout "Check your capture folder for the saved images.";
           Echo Stdout "You can use 'capture-pdf compile' to combine them into PDF."]
  | (Raise e, w1) =>
      capture_with_button page_count capture_button delay capture_delay
                          confirm_button confirm_delay w
      = (Raise (Exit 1), after_call w1 (Echo Stderr ("Error: " +:+ str e))) ∧
      exit_status (capture_with_button page_count capture_button delay capture_delay
                                       confirm_button confirm_delay w).1 = 1
  end.
Proof.
  split.
  - pose proof (try_report_and_exit
                  (capture_book_body page_count output_path region delay) w) as Htry.
    fold (capture_book page_count output_path region delay) in Htry.
    destruct (capture_book_body _ _ _ _ w) as [[[]|e] w1] eqn:Hbody.
    + rewrite Htry. repeat split. eapply capture_book_body_done, Hbody.
    + rewrite Htry. split; reflexivity.
  - pose proof (try_report_and_exit
                  (capture_with_button_body page_count capture_button delay capture_delay
                                            confirm_button confirm_delay) w) as Htry.
    fold (capture_with_button page_count capture_button delay capture_delay
                              confirm_button confirm_delay) in Htry.
    destruct (capture_with_button_body _ _ _ _ _ _ w) as [[[]|e] w1] eqn:Hbody.
    + rewrite Htry. repeat split. eapply capture_with_button_body_done, Hbody.
    + rewrite Htry. split; reflexivity.
Qed.

(** The three stages at which a run of [capture_book] can fail, each on a
    platform that refuses that stage. *)

Example capture_failure_exits_1 :
  capture_book (H := refusing_platform) 3 "book.pdf" None 1 empty_world
  = (Raise (Exit 1),
     {| fs := ∅; open_fps := ∅;
        calls := [Echo Stdout "Capturing page 1/3...";
                  WindowListCreateImage CGRectInfinite;
                  Echo Stderr ("Error: Screen capture failed. Please ensure Screen Recording "
                               +:+ "permission is granted in System Preferences > "
                               +:+ "Privacy & Security > Screen Recording")] |}).
Proof. reflexivity. Qed.

Example navigation_failure_exits_1 :
  capture_book (H := no_accessibility_platform) 3 "book.pdf" None 1 empty_world
  = (Raise (Exit 1),
     {| fs := ∅; open_fps := ∅;
        calls := [Echo Stdout "Capturing page 1/3...";
                  WindowListCreateImage CGRectInfinite;
                  CreateKeyboardEvent 0x7C true;
                  Echo Stderr ("Error: Failed to create keyboard event. "
                               +:+ "Please grant Accessibility permission in "
                               +:+ "System Preferences > Privacy & Security > Accessibility")] |}).
Proof. reflexivity. Qed.

Example compilation_failure_exits_1 :
  capture_book (H := read_only_platform) 1 "book.pdf" None 1 empty_world
  = (Raise (Exit 1),
     {| fs := ∅; open_fps := ∅;
        calls := [Echo Stdout "Capturing page 1/1...";
                  WindowListCreateImage CGRectInfinite;
                  Echo Stdout "Compiling PDF to book.pdf...";
                  Save "book.pdf";
                  Echo Stderr "Error: cannot write output file"] |}).
Proof. reflexivity. Qed.

(** A page count of zero captures nothing, and the compiler rejects the
    empty list. *)
Example no_pages_exits_1 :
  capture_book (H := granting_platform) 0 "book.pdf" None 1 empty_world
  = (Raise (Exit 1),
     {| fs := ∅; open_fps := ∅;
        calls := [Echo Stdout "Compiling PDF to book.pdf...";
                  Echo Stderr "Error: No images provided"] |}).
Proof. reflexivity. Qed.

(** The half transparent red pixel of [rgba_1x1] becomes a light red. *)
Example paste_on_white_rgba_1x1 : data (paste_on_white rgba_1x1) = [[255; 127; 127]].
Proof. reflexivity. Qed.

(** With equal modification times the two orders are not reversed: the
    sort is stable in both directions. *)
Example sort_time_ties_keep_order :
  (sort_files (H := refusing_platform) "time" [["a"]; ["b"]]).1 = [["a"]; ["b"]] ∧
  (sort_files (H := refusing_platform) "time-desc" [["a"]; ["b"]]).1 = [["a"]; ["b"]].
Proof. split; reflexivity. Qed.

(** ** cli.py: parsing *)

Lemma split_comma_length s : length (split_comma s) = S (count_commas s).
Proof.
  induction s as [|c s IH]; simpl; [done|].
  destruct (Ascii.eqb c _); simpl; [by rewrite IH|].
  destruct (split_comma s); simpl in *; lia.
Qed.

Lemma int_fields_ok `{Python} fields ns :
  int_fields fields = Ok ns <->
  Forall2 (fun field n => py_int (py_strip field) = Ok n) fields ns.
Proof.
  revert ns. induction fields as [|field fields IH]; intros ns; simpl.
  - split; [intros [= <-]; constructor|by inversion 1].
  - destruct (py_int (py_strip field)) as [n|msg] eqn:Hn.
    + destruct (int_fields fields) as [ns'|msg] eqn:Hrest.
      * split.
        -- intros [= <-]. constructor; [done|by apply IH].
        -- inversion 1 as [|? n' ? ns'' Hn' Hns]; subst.
           apply IH in Hns. congruence.
      * split; [done|].
        inversion 1 as [|? n' ? ns'' Hn' Hns]; subst. apply IH in Hns. congruence.
    + split; [done|]. inversion 1; congruence.
Qed.

(** [parse_region] returns a region exactly for a string of four
    comma-separated fields that [int] accepts after [strip]; the fields
    are x, y, width and height in this order, and no value is rejected
    for its sign or size.  In particular the string has three commas. *)
Theorem parse_region_ok_iff `{Python} region_str r :
  parse_region region_str = Ok (Some r) <->
  exists s fx fy fw fh,
    region_str = Some s ∧ count_commas s = 3%nat ∧
    split_comma s = [fx; fy; fw; fh] ∧
    py_int (py_strip fx) = Ok (x r) ∧ py_int (py_strip fy) = Ok (y r) ∧
    py_int (py_strip fw) = Ok (region_width r) ∧
    py_int (py_strip fh) = Ok (region_height r).
Proof.
  split.
  - destruct region_str as [s|]; [|discriminate].
    destruct s as [|c s]; [discriminate|].
    unfold parse_region.
    destruct (int_fields _) as [parts|msg] eqn:Hparts; [|discriminate].
    destruct parts as [|p0 [|p1 [|p2 [|p3 [|? ?]]]]]; try discriminate.
    intros [= <-].
    apply int_fields_ok in Hparts.
    pose proof (Forall2_length _ _ _ Hparts) as Hlen.
    pose proof (split_comma_length (String c s)) as Hcommas.
    destruct (split_comma (String c s)) as [|fx [|fy [|fw [|fh [|? ?]]]]] eqn:Hsplit;
      try discriminate.
    apply Forall2_cons in Hparts as [H0 Hparts].
    apply Forall2_cons in Hparts as [H1 Hparts].
    apply Forall2_cons in Hparts as [H2 Hparts].
    apply Forall2_cons in Hparts as [H3 _].
    exists (String c s), fx, fy, fw, fh. cbn [length] in Hcommas.
    repeat split; try done. lia.
  - intros (s & fx & fy & fw & fh & -> & _ & Hsplit & H0 & H1 & H2 & H3).
    destruct s as [|c s]; [discriminate|].
    unfold parse_region. rewrite Hsplit.
    rewrite (proj2 (int_fields_ok [fx; fy; fw; fh]
                      [x r; y r; region_width r; region_height r])).
    + by destruct r.
    + repeat constructor; done.
Qed.

(** Every other outcome of [parse_region]: no region for a missing or
    empty string, and [BadParameter] with the prefix "Invalid region
    format: " for everything else. *)
Theorem parse_region_outcomes `{Python} region_str :
  (parse_region region_str = Ok None <-> region_str = None ∨ region_str = Some ""%string) ∧
  (forall e, parse_region region_str = Raise e ->
             exists msg, e = BadParameter ("Invalid region format: " +:+ msg)).
Proof.
  split.
  - destruct region_str as [[|c s]|]; simpl.
    + split; auto.
    + split; [|intros [|]; discriminate].
      destruct (int_fields _) as [parts|msg]; [|discriminate].
      by destruct parts as [|p0 [|p1 [|p2 [|p3 [|? ?]]]]].
    + split; auto.
  - intros e. destruct region_str as [[|c s]|]; simpl; try discriminate.
    destruct (int_fields _) as [parts|msg].
    + destruct parts as [|p0 [|p1 [|p2 [|p3 [|? ?]]]]]; intros [= <-]; eauto.
    + intros [= <-]. eauto.
Qed.

(** [parse_point] returns a point exactly for a string of two
    comma-separated fields that [int] accepts after [strip]. *)
Theorem parse_point_ok_iff `{Python} point_str px py :
  parse_point point_str = Ok (Some (px, py)) <->
  exists s fx fy,
    point_str = Some s ∧ count_commas s = 1%nat ∧
    split_comma s = [fx; fy] ∧
    py_int (py_strip fx) = Ok px ∧ py_int (py_strip fy) = Ok py.
Proof.
  split.
  - destruct point_str as [s|]; [|discriminate].
    destruct s as [|c s]; [discriminate|].
    unfold parse_point.
    destruct (int_fields _) as [parts|msg] eqn:Hparts; [|discriminate].
    destruct parts as [|p0 [|p1 [|? ?]]]; try discriminate.
    intros [= <- <-].
    apply int_fields_ok in Hparts.
    pose proof (Forall2_length _ _ _ Hparts) as Hlen.
    pose proof (split_comma_length (String c s)) as Hcommas.
    destruct (split_comma (String c s)) as [|fx [|fy [|? ?]]] eqn:Hsplit;
      try discriminate.
    apply Forall2_cons in Hparts as [H0 Hparts].
    apply Forall2_cons in Hparts as [H1 _].
    exists (String c s), fx, fy. cbn [length] in Hcommas.
    repeat split; try done. lia.
  - intros (s & fx & fy & -> & _ & Hsplit & H0 & H1).
    destruct s as [|c s]; [discriminate|].
    unfold parse_point. rewrite Hsplit.
    rewrite (proj2 (int_fields_ok [fx; fy] [px; py])); [done|].
    repeat constructor; done.
Qed.

Example parse_region_decimal :
  parse_region (H := decimal_python) (Some "100,-20,800,1000"%string)
  = Ok (Some {| x := 100; y := -20; region_width := 800; region_height := 1000 |}).
Proof. reflexivity. Qed.

Example parse_region_three_fields :
  parse_region (H := decimal_python) (Some "100,20,800"%string)
  = Raise (BadParameter
             "Invalid region format: Region must have 4 values: x,y,width,height").
Proof. reflexivity. Qed.

(** ** What the commands leave alone *)

Section only_calls.
Context {E : Type} (ok : Call -> bool).

Lemma only_calls_ret {A} (a : A) : only_calls (E := E) ok (ret a).
Proof. intros w. simpl. repeat split. exists []. by rewrite app_nil_r. Qed.

Lemma only_calls_raise {A} (e : E) : only_calls (A := A) ok (raise e).
Proof. intros w. simpl. repeat split. exists []. by rewrite app_nil_r. Qed.

Lemma only_calls_log (c : Call) : ok c = true -> only_calls (E := E) ok (log c).
Proof. intros Hc w. simpl. repeat split. exists [c]. split; [done|]. by constructor. Qed.

Lemma only_calls_bind {A B} (c : M E A) (k : A -> M E B) :
  only_calls ok c -> (forall a, only_calls ok (k a)) -> only_calls ok (bind c k).
Proof.
  intros Hc Hk w. unfold bind.
  destruct (Hc w) as (Hfs & Hfps & cs & Hcalls & Hok).
  destruct (c w) as [[a|e] w1]; simpl in *.
  - destruct (Hk a w1) as (Hfs' & Hfps' & cs' & Hcalls' & Hok').
    rewrite Hfs', Hfps', Hcalls', Hfs, Hfps, Hcalls. repeat split.
    exists (cs ++ cs'). rewrite app_assoc. split; [done|]. by apply Forall_app.
  - repeat split; eauto.
Qed.

Lemma only_calls_for {A S} (body : A -> S -> M E S) (l : list A) :
  (forall a s, only_calls ok (body a s)) -> forall s, only_calls ok (for_ l body s).
Proof.
  intros Hbody. induction l as [|a l IH]; intros s; simpl.
  - apply only_calls_ret.
  - apply only_calls_bind; [apply Hbody|exact IH].
Qed.

Lemma only_calls_if {A} (b : bool) (c1 c2 : M E A) :
  only_calls ok c1 -> only_calls ok c2 -> only_calls ok (if b then c1 else c2).
Proof. by destruct b. Qed.
End only_calls.

Lemma only_calls_try_except {E A} ok (body : M Exception A) (handler : Exception -> M E A) :
  only_calls ok body -> (forall e, only_calls ok (handler e)) ->
  only_calls ok (try_except body handler).
Proof.
  intros Hc Hk w. unfold try_except.
  destruct (Hc w) as (Hfs & Hfps & cs & Hcalls & Hok).
  destruct (body w) as [[a|e] w1]; simpl in *.
  - repeat split; eauto.
  - destruct (Hk e w1) as (Hfs' & Hfps' & cs' & Hcalls' & Hok').
    rewrite Hfs', Hfps', Hcalls', Hfs, Hfps, Hcalls. repeat split.
    exists (cs ++ cs'). rewrite app_assoc. split; [done|]. by apply Forall_app.
Qed.

Lemma only_calls_map_error {E E' A} ok (f : E -> E') (c : M E A) :
  only_calls ok c -> only_calls ok (map_error f c).
Proof.
  intros Hc w. unfold map_error. specialize (Hc w).
  destruct (c w) as [[a|e] w1]; exact Hc.
Qed.

Lemma only_calls_weaken {E A} (ok ok' : Call -> bool) (c : M E A) :
  (forall call, ok call = true -> ok' call = true) ->
  only_calls ok c -> only_calls ok' c.
Proof.
  intros Himp Hc w. destruct (Hc w) as (Hfs & Hfps & cs & Hcalls & Hok).
  repeat split; [done..|]. exists cs. split; [done|].
  eapply Forall_impl; [exact Hok|]. exact Himp.
Qed.

(** The steps of the navigator synthesize input, sleep and do nothing
    else. *)
Lemma only_calls_time_sleep `{Platform} seconds :
  only_calls is_input_or_echo (time_sleep seconds).
Proof.
  unfold time_sleep. destruct seconds as [q| |]; try apply only_calls_raise.
  apply only_calls_if; [apply only_calls_raise|].
  apply only_calls_if; [apply only_calls_raise|].
  intros w. destruct (sleep_accepted _ _).
  - by apply (only_calls_log (E := Exception) is_input_or_echo (Sleep q)).
  - apply (only_calls_raise (A := unit) is_input_or_echo).
Qed.

Lemma only_calls_create_keyboard `{Platform} key_code down :
  only_calls (E := Exception) is_input_or_echo (CGEventCreateKeyboardEvent key_code down).
Proof. intros w. simpl. repeat split. eexists [_]. split; [done|]. by constructor. Qed.

Lemma only_calls_create_mouse `{Platform} ty px py :
  only_calls (E := Exception) is_input_or_echo (CGEventCreateMouseEvent ty px py).
Proof. intros w. simpl. repeat split. eexists [_]. split; [done|]. by constructor. Qed.

Lemma only_calls_press_key `{Platform} key_code modifiers :
  only_calls is_input_or_echo (press_key key_code modifiers).
Proof.
  unfold press_key. apply only_calls_bind; [apply only_calls_create_keyboard|].
  intros [event|]; [|apply only_calls_raise].
  repeat (apply only_calls_bind; [|intros ?]);
    first [by apply only_calls_log | apply only_calls_time_sleep
          | apply only_calls_create_keyboard].
Qed.

Lemma only_calls_click `{Platform} px py : only_calls is_input_or_echo (click px py).
Proof.
  unfold click.
  repeat (apply only_calls_bind; [|intros ?]);
    first [by apply only_calls_log | apply only_calls_time_sleep
          | apply only_calls_create_mouse].
Qed.

Lemma only_calls_navigate_and_wait `{Platform} delay :
  only_calls is_input_or_echo (navigate_and_wait delay).
Proof.
  unfold navigate_and_wait, next_page, wait_for_page.
  apply only_calls_bind; [apply only_calls_press_key|intros _; apply only_calls_time_sleep].
Qed.

Lemma only_calls_click_and_wait `{Platform} px py wait :
  only_calls is_input_or_echo (click_and_wait px py wait).
Proof.
  unfold click_and_wait.
  apply only_calls_bind; [apply only_calls_click|intros _; apply only_calls_time_sleep].
Qed.

Lemma only_calls_echo {E} ok msg : ok (Echo Stdout msg) = true -> only_calls (E := E) ok (echo msg).
Proof. apply only_calls_log. Qed.

(** Decomposes a goal [only_calls ok c] along the syntax of [c]. *)
Ltac only_calls_tac :=
  repeat lazymatch goal with
  | |- only_calls _ (bind _ _) => apply only_calls_bind; [|intros ?]
  | |- only_calls _ (echo _) => apply only_calls_echo; reflexivity
  | |- only_calls _ (echo_err _) => apply only_calls_log; reflexivity
  | |- only_calls _ (log _) => apply only_calls_log; reflexivity
  | |- only_calls _ (time_sleep _) => apply only_calls_time_sleep
  | |- only_calls _ (click_and_wait _ _ _) => apply only_calls_click_and_wait
  | |- only_calls _ (navigate_and_wait _) => apply only_calls_navigate_and_wait
  | |- only_calls _ (ret _) => apply only_calls_ret
  | |- only_calls _ (raise _) => apply only_calls_raise
  | |- only_calls _ (sys_exit _) => apply only_calls_raise
  | |- only_calls _ (for_ _ _ _) => apply only_calls_for; intros ? ?
  | |- only_calls _ (if _ then _ else _) => apply only_calls_if
  | |- only_calls _ (match ?x with _ => _ end) => destruct x
  end.

Lemma only_calls_capture_with_button `{Platform} page_count capture_button delay
    capture_delay confirm_button confirm_delay :
  only_calls is_input_or_echo
    (capture_with_button page_count capture_button delay capture_delay
                         confirm_button confirm_delay).
Proof.
  apply (only_calls_try_except is_input_or_echo).
  - unfold capture_with_button_body. only_calls_tac.
  - intros e. unfold report_and_exit. only_calls_tac.
Qed.

(** [capture_with_button], on every platform and for every input, also
    when it fails: it never asks for a screen image, never opens, closes
    or writes a file, and leaves the file system as it was.  All it does
    is synthesize input events, sleep and print. *)
Theorem capture_with_button_only_input `{Platform} page_count capture_button delay
    capture_delay confirm_button confirm_delay w :
  let w' := (capture_with_button page_count capture_button delay capture_delay
                                 confirm_button confirm_delay w).2 in
  fs w' = fs w ∧ open_fps w' = open_fps w ∧
  exists cs, calls w' = calls w ++ cs ∧
             Forall (fun call => is_input_or_echo call = true) cs.
Proof. apply only_calls_capture_with_button. Qed.


(** The steps of the capturer ask for screen images and touch no file. *)
Lemma only_calls_cg_image_to_pil ok cg : only_calls ok (cg_image_to_pil cg).
Proof.
  unfold cg_image_to_pil. destruct (decide _); [apply only_calls_ret|apply only_calls_raise].
Qed.

Lemma only_calls_Image_resize `{Platform} ok im sz filter :
  only_calls ok (Image_resize im sz filter).
Proof.
  unfold Image_resize. destruct (decide _); [apply only_calls_ret|].
  destruct (negb _); [apply only_calls_raise|].
  destruct (negb _); [apply only_calls_raise|].
  destruct (_ || _); [apply only_calls_raise|].
  destruct (negb _); [apply only_calls_raise|apply only_calls_ret].
Qed.

Lemma only_calls_window_image `{Platform} rect :
  only_calls (E := Exception) is_not_file_call (CGWindowListCreateImage rect).
Proof. intros w. simpl. repeat split. eexists [_]. split; [done|]. by constructor. Qed.

Lemma only_calls_capture `{Platform} (region : option CaptureRegion) :
  only_calls is_not_file_call
    match region with
    | Some region => capture_region region
    | None => capture_full_screen
    end.
Proof.
  destruct region as [r|]; [unfold capture_region|unfold capture_full_screen];
    (apply only_calls_bind; [apply only_calls_window_image|]);
    intros [cg|]; try apply only_calls_raise.
  - apply only_calls_bind; [apply only_calls_cg_image_to_pil|intros image].
    destruct (_ || _); [apply only_calls_Image_resize|apply only_calls_ret].
  - apply only_calls_cg_image_to_pil.
Qed.

Lemma only_calls_capture_book_loop `{Platform} page_count region delay i images :
  only_calls is_not_file_call (capture_book_loop page_count region delay i images).
Proof.
  unfold capture_book_loop.
  apply only_calls_bind; [by apply only_calls_echo|intros _].
  apply only_calls_bind; [apply only_calls_capture|intros image].
  apply only_calls_bind; [|intros _; apply only_calls_ret].
  apply only_calls_if; [|apply only_calls_ret].
  eapply only_calls_weaken; [|apply only_calls_navigate_and_wait].
  by intros [].
Qed.

(** What the loop returns: the images it started with and one RGBA image
    per page index. *)
Lemma capture_loop_result `{Platform} page_count region delay (idx : list Z) :
  forall acc w images w',
    for_ idx (capture_book_loop page_count region delay) acc w = (Ok images, w') ->
    exists new, images = acc ++ new ∧ length new = length idx ∧
                Forall (fun img => mode img = Mode_RGBA) new ∧
                Forall nonempty new.
Proof.
  induction idx as [|i idx IH]; intros acc w images w'; simpl.
  - intros [= <- <-]. exists []. by rewrite app_nil_r.
  - intros Hrun. apply bind_inv_ok in Hrun as (acc' & w1 & Hbody & Hrest).
    unfold capture_book_loop in Hbody.
    apply bind_inv_ok in Hbody as ([] & w2 & _ & Hbody).
    apply bind_inv_ok in Hbody as (image & w3 & Hcap & Hbody).
    apply bind_inv_ok in Hbody as ([] & w4 & _ & Hret).
    injection Hret as <- <-.
    assert (mode image = Mode_RGBA) as Hmode.
    { destruct region; [eapply capture_region_mode|eapply capture_full_screen_mode]; eauto. }
    pose proof (capture_nonempty region _ _ _ Hcap) as Hpix.
    destruct (IH _ _ _ _ Hrest) as (new & -> & Hlen & Hmodes & Hpixs).
    exists (image :: new). rewrite <- app_assoc. simpl.
    split; [done|]. split; [by rewrite Hlen|]. split; by constructor.
Qed.


(** A run of [capture_book] that returns has written the document: the
    page count is at least 1, the output path holds exactly [page_count]
    pages at 150 dpi, each the white-background flattening of an RGBA
    capture, and no other path has changed. *)
Theorem capture_book_success_document `{Platform} page_count output_path region
    delay w w' :
  capture_book page_count output_path region delay w = (Ok tt, w') ->
  1 <= page_count ∧ writable output_path = true ∧
  exists images,
    Z.of_nat (length images) = page_count ∧
    Forall (fun img => mode img = Mode_RGBA) images ∧
    fs w' = <[output_path := PdfFile (map paste_on_white images) 150]> (fs w).
Proof.
  unfold capture_book, try_except, capture_book_body.
  pose proof (only_calls_for is_not_file_call _ (range page_count)
                (fun i images => only_calls_capture_book_loop page_count region delay i images)
                [] w) as (Hfs & _ & _).
  unfold bind at 1.
  destruct (for_ _ _ _ w) as [[images|e0] w0] eqn:Hloop; simpl in Hfs;
    [|simpl; discriminate].
  apply capture_loop_result in Hloop as (new & -> & Hlen & Hmodes & Hpix). simpl in *.
  unfold bind at 1. unfold echo at 1, log at 1. unfold bind at 1.
  destruct new as [|img images]; [simpl; discriminate|].
  rewrite compile_cons, (save_error_none_pages _ 150%Q Hpix eq_refl).
  destruct (writable output_path); [|simpl; discriminate].
  simpl. intros [= <-]. simpl.
  unfold range in Hlen. rewrite length_seqZ in Hlen. simpl in Hlen.
  split; [lia|]. split; [done|].
  exists (img :: images). split; [simpl; lia|]. split; [done|].
  rewrite Hfs. do 2 f_equal.
  change (rgb_page img :: map rgb_page images) with (map rgb_page (img :: images)).
  apply map_ext_Forall. eapply Forall_impl; [exact Hmodes|].
  intros im Him. unfold rgb_page. by rewrite decide_True.
Qed.

Lemma capture_book_success_document_witness :
  1 <= 2 ∧ writable (Platform := granting_platform) "book.pdf" = true ∧
  exists images,
    Z.of_nat (length images) = 2 ∧
    Forall (fun img => mode img = Mode_RGBA) images ∧
    fs (capture_book (H := granting_platform) 2 "book.pdf" (Some region_2x1) 1
                     empty_world).2
    = <["book.pdf"%string := PdfFile (map paste_on_white images) 150]> (fs empty_world).
Proof.
  apply (capture_book_success_document (H := granting_platform) 2 "book.pdf"
           (Some region_2x1) 1 empty_world).
  vm_compute. reflexivity.
Defined.


(** ** The button workflow *)

Lemma tally_ret {E A} (a : A) : tally (E := E) (ret a) 0 0.
Proof. intros w. exists a, []. rewrite app_nil_r. by destruct w. Qed.

Lemma tally_log {E} (c : Call) :
  tally (E := E) (log c) (if is_click_request c then 1 else 0)
                         (if is_key_request c then 1 else 0).
Proof.
  intros w. exists tt, [c]. split; [done|].
  unfold count. rewrite !filter_cons, !filter_nil.
  destruct (is_click_request c), (is_key_request c); done.
Qed.

Lemma tally_bind {E A B} (c : M E A) (k : A -> M E B) n m n' m' :
  tally c n m -> (forall a, tally (k a) n' m') -> tally (bind c k) (n + n') (m + m').
Proof.
  intros Hc Hk w. destruct (Hc w) as (a & cs & Hrun & Hn & Hm).
  rewrite (bind_ok _ _ _ _ _ Hrun).
  destruct (Hk a {| fs := fs w; open_fps := open_fps w; calls := calls w ++ cs |})
    as (b & cs' & Hrun' & Hn' & Hm').
  exists b, (cs ++ cs'). rewrite Hrun'. simpl. rewrite app_assoc, !count_app.
  split; [done|]. lia.
Qed.

Lemma tally_eq {E A} (c : M E A) n m n' m' :
  tally c n m -> n = n' -> m = m' -> tally c n' m'.
Proof. by intros ? <- <-. Qed.

Lemma tally_time_sleep `{Platform} seconds :
  sleepable seconds -> tally (time_sleep seconds) 0 0.
Proof.
  intros Hs w. exists tt, [Sleep seconds]. by rewrite (time_sleep_ok _ _ Hs).
Qed.

(** A click is one click request, whatever the platform answers. *)
Lemma tally_click `{Platform} px py : tally (click px py) 1 0.
Proof.
  intros w. destruct (click_never_raises px py w)
    as (e1 & e2 & e3 & w' & Hrun & Hcalls & Hfs & Hfps).
  eexists tt, _. rewrite Hrun.
  split; [destruct w'; simpl in *; subst; reflexivity|done].
Qed.

(** A key press is one key request when the key-down event is granted. *)
Lemma tally_press_key `{P : Platform} key_code modifiers :
  key_down_granted P -> tally (press_key key_code modifiers) 0 1.
Proof.
  intros Hkey w.
  destruct (press_key_ignores_key_up key_code modifiers w (Hkey _ _))
    as (e & w' & Hrun & Hcalls & Hfs & Hfps).
  eexists tt, _. rewrite Hrun.
  split; [destruct w'; simpl in *; subst; reflexivity|done].
Qed.

Lemma tally_for {E A} (body : A -> unit -> M E unit) (f : A -> Prop)
    `{!forall a, Decision (f a)} n (l : list A) :
  (forall a s, tally (body a s) n (if bool_decide (f a) then 1 else 0)) ->
  tally (for_ l body tt) (n * Z.of_nat (length l)) (Z.of_nat (length (filter f l))).
Proof.
  intros Hbody. induction l as [|a l IH]; simpl.
  - eapply tally_eq; [apply tally_ret|lia|done].
  - eapply tally_eq; [apply tally_bind; [apply Hbody|intros []; exact IH]|lia|].
    rewrite filter_cons, bool_decide_decide. destruct (decide (f a)); simpl; lia.
Qed.

Lemma filter_not_last_max (n : Z) :
  Z.of_nat (length (filter (fun i => i < n - 1) (seqZ 0 n))) = Z.max (n - 1) 0.
Proof.
  destruct (decide (1 <= n)) as [Hn|Hn].
  - rewrite filter_not_last by done. lia.
  - rewrite seqZ_nil by lia. simpl. lia.
Qed.

Lemma tally_click_and_wait `{Platform} px py wait :
  sleepable wait -> tally (click_and_wait px py wait) 1 0.
Proof.
  intros Hw. unfold click_and_wait.
  eapply tally_eq; [apply tally_bind; [apply tally_click|intros _; by apply tally_time_sleep]|done..].
Qed.

Lemma tally_navigate_and_wait `{P : Platform} delay :
  key_down_granted P -> sleepable delay -> tally (navigate_and_wait delay) 0 1.
Proof.
  intros Hkey Hd. unfold navigate_and_wait, next_page, wait_for_page.
  eapply tally_eq;
    [apply tally_bind; [by apply tally_press_key|intros _; by apply tally_time_sleep]|done..].
Qed.

Lemma tally_echo {E} msg : tally (E := E) (echo msg) 0 0.
Proof. apply (tally_log (Echo Stdout msg)). Qed.

(** [capture_with_button] on a platform that grants key-down events,
    with delays that [time.sleep] sleeps (not negative, below 2^63 ns,
    taken by the system): it returns for every page count, its only
    effect is on the list of calls, it clicks the capture button once per
    page (and the confirm button once per page, when there is one) and
    presses the key once per page but the last.  A page count of zero or
    less gives a normal return without any click. *)
Theorem capture_with_button_requests `{P : Platform} page_count capture_button delay
    capture_delay confirm_button confirm_delay w :
  key_down_granted P ->
  sleepable delay ->
  sleepable capture_delay ->
  sleepable confirm_delay ->
  exists cs,
    capture_with_button page_count capture_button delay capture_delay
                        confirm_button confirm_delay w
    = (Ok tt, {| fs := fs w; open_fps := open_fps w; calls := calls w ++ cs |}) ∧
    count is_click_request cs
      = clicks_per_page confirm_button * Z.max page_count 0 ∧
    count is_key_request cs = Z.max (page_count - 1) 0.
Proof.
  intros Hkey Hd Hcd Hfd.
  assert (tally (capture_with_button_body page_count capture_button delay capture_delay
                                          confirm_button confirm_delay)
                (clicks_per_page confirm_button * Z.max page_count 0)
                (Z.max (page_count - 1) 0)) as Hbody.
  { unfold capture_with_button_body.
    eapply tally_eq.
    - do 2 (apply tally_bind; [apply tally_echo|intros _]).
      apply tally_bind; [|intros _].
      { instantiate (1 := 0). instantiate (1 := 0).
        destruct confirm_button; [apply tally_echo|apply tally_ret]. }
      do 3 (apply tally_bind; [apply tally_echo|intros _]).
      apply tally_bind; [by apply tally_time_sleep, sleepable_month|intros _].
      apply tally_bind; [|intros _].
      { apply (tally_for _ (fun i => i < page_count - 1)
                 (clicks_per_page confirm_button)).
        intros i [].
        destruct (bool_decide (i < page_count - 1));
          (eapply tally_eq;
           [apply tally_bind; [apply tally_echo|intros _];
            apply tally_bind; [by apply tally_click_and_wait|intros _];
            apply tally_bind;
              [instantiate (1 := 0); instantiate (1 := clicks_per_page confirm_button - 1);
               destruct confirm_button;
               [by apply tally_click_and_wait|apply tally_ret]
              |intros _]
           |..]).
        - apply tally_bind; [apply tally_echo|intros _].
          by apply tally_navigate_and_wait.
        - destruct confirm_button; done.
        - done.
        - apply tally_ret.
        - destruct confirm_button; done.
        - done. }
      do 3 (apply tally_bind; [apply tally_echo|intros _]).
      apply tally_echo.
    - unfold range. rewrite length_seqZ. destruct confirm_button; simpl; lia.
    - unfold range. rewrite filter_not_last_max. simpl. lia. }
  destruct (Hbody w) as ([] & cs & Hrun & Hclicks & Hkeys).
  exists cs. unfold capture_with_button, try_except. rewrite Hrun. done.
Qed.

Lemma capture_with_button_requests_witness :
  exists cs,
    capture_with_button (H := granting_platform) 3 (10, 20) 1 0.5 (Some (30, 40)) 0.3
                        empty_world
    = (Ok tt, {| fs := fs empty_world; open_fps := open_fps empty_world;
                 calls := calls empty_world ++ cs |}) ∧
    count is_click_request cs = clicks_per_page (Some (30, 40)) * Z.max 3 0 ∧
    count is_key_request cs = Z.max (3 - 1) 0.
Proof.
  apply (capture_with_button_requests (P := granting_platform) 3 (10, 20) 1 0.5
           (Some (30, 40)) 0.3 empty_world).
  - intros cs key_code. reflexivity.
  - apply granting_platform_sleepable; reflexivity.
  - apply granting_platform_sleepable; reflexivity.
  - apply granting_platform_sleepable; reflexivity.
Defined.

(** ** The commands *)

Lemma only_calls_fail_with ok msg :
  ok (Echo Stderr msg) = true -> only_calls ok (fail_with msg).
Proof.
  intros Hok. unfold fail_with.
  apply only_calls_bind; [by apply only_calls_log|intros _; apply only_calls_raise].
Qed.

Lemma only_calls_lift_result {E A} ok (r : Result E A) : only_calls ok (lift_result r).
Proof. intros w. simpl. repeat split. exists []. by rewrite app_nil_r. Qed.

(** The command [button], for all arguments, permissions and platforms:
    it never asks for a screen image and never opens, closes or writes a
    file; the file system after the command is the one before it. *)
Theorem button_only_input `{Platform} `{Permissions} `{Python}
    pages button_str confirm delay capture_delay w :
  let w' := (button pages button_str confirm delay capture_delay w).2 in
  fs w' = fs w ∧ open_fps w' = open_fps w ∧
  exists cs, calls w' = calls w ++ cs ∧
             Forall (fun call => is_input_or_echo call = true) cs.
Proof.
  revert w. change (only_calls is_input_or_echo
                      (button pages button_str confirm delay capture_delay)).
  unfold button.
  apply only_calls_bind.
  { apply only_calls_if; [by apply only_calls_fail_with|apply only_calls_ret]. }
  intros _. apply only_calls_bind; [apply only_calls_lift_result|].
  intros [capture_button|]; [|by apply only_calls_fail_with].
  apply only_calls_bind.
  { destruct confirm as [[|c s]|];
      [apply only_calls_ret|apply only_calls_lift_result|apply only_calls_ret]. }
  intros confirm_button. apply only_calls_map_error.
  apply only_calls_capture_with_button.
Qed.

(** The legacy entry point [main] with [pages] and [output] given is the
    command [screenshot]: the same result, the same file system and open
    handles, and the same number of calls; with both permissions granted
    the two runs are the same run.  Only the wording of the permission
    messages differs. *)
Theorem main_is_screenshot `{Platform} `{Permissions} `{Python}
    cli pages output delay region w :
  let legacy := main cli (Some pages) (Some output) delay region w in
  let command := screenshot pages output delay region w in
  legacy.1 = command.1 ∧
  fs legacy.2 = fs command.2 ∧ open_fps legacy.2 = open_fps command.2 ∧
  length (calls legacy.2) = length (calls command.2) ∧
  (check_screen_recording_permission = true ->
   check_accessibility_permission = true -> legacy = command).
Proof.
  unfold main, screenshot.
  destruct check_screen_recording_permission, check_accessibility_permission; simpl;
    repeat split; try done; simpl; by rewrite !length_app.
Qed.

(** ** capturer.py: the layout of a converted frame *)

Lemma concat_mjoin {A} (ls : list (list A)) : concat ls = mjoin ls.
Proof. induction ls as [|l ls IH]; simpl; [done|]. by rewrite IH. Qed.

Lemma reshape_rows_length {A} (n m : nat) : forall l : list A,
  length l = (m * n)%nat ->
  Forall (fun row => length row = n) (reshape (replicate m n) l).
Proof.
  induction m as [|m IH]; intros l Hl; simpl; constructor.
  - rewrite length_take. lia.
  - apply IH. rewrite length_drop. lia.
Qed.

Lemma reshape_lookup {A} (n m i : nat) (l : list A) :
  (0 < n)%nat -> length l = (m * n)%nat -> (i < m)%nat ->
  reshape (replicate m n) l !! i = Some (take n (drop (i * n) l)).
Proof.
  intros Hn Hl Hi. rewrite sublist_lookup_reshape by done.
  unfold sublist_lookup. rewrite option_guard_True; [done|].
  rewrite Hl. nia.
Qed.

Lemma nth_take_drop (bytes : list Z) (off j : nat) :
  (j < 4)%nat -> nth j (take 4 (drop off bytes)) 0 = nth (off + j) bytes 0.
Proof.
  intros Hj. rewrite !nth_lookup, lookup_take_lt, lookup_drop by done. done.
Qed.

(** The pixel of the image at row [r] and column [c] is made of the four
    bytes of the buffer at offset [4 * (r * cols + c)], where [cols] is
    the number of pixels a buffer row holds, padding included: the bytes
    come as B, G, R, A and leave as R, G, B, A.  The image has the width
    and the height of the frame; the padding pixels of a row are dropped. *)
Theorem cg_image_to_pil_pixels cg w :
  frame_consistent cg ->
  0 <= cg_height cg ->
  0 <= cg_width cg <= cg_bytes_per_row cg `div` 4 ->
  exists frame,
    cg_image_to_pil cg w = (Ok frame, w) ∧
    mode frame = Mode_RGBA ∧
    size frame = (cg_width cg, cg_height cg) ∧
    length (data frame) = Z.to_nat (cg_width cg * cg_height cg) ∧
    forall r c : nat,
      Z.of_nat r < cg_height cg -> Z.of_nat c < cg_width cg ->
      let off := (4 * (r * Z.to_nat (cg_bytes_per_row cg `div` 4) + c))%nat in
      data frame !! (r * Z.to_nat (cg_width cg) + c)%nat
      = Some [nth (off + 2) (cg_data cg) 0; nth (off + 1) (cg_data cg) 0;
              nth off (cg_data cg) 0; nth (off + 3) (cg_data cg) 0].
Proof.
  intros Hc Hh Hw. exists (frame_image cg).
  split; [by apply cg_image_to_pil_ok|]. split; [done|].
  split; [unfold frame_image; simpl; f_equal; lia|].
  unfold frame_consistent in Hc. unfold frame_image. simpl.
  set (cols := cg_bytes_per_row cg `div` 4) in *.
  set (W := Z.to_nat (cg_width cg)). set (C := Z.to_nat cols).
  set (H := Z.to_nat (cg_height cg)).
  assert (length (cg_data cg) = (H * C * 4)%nat) as Hlen.
  { apply Nat2Z.inj. subst H C. rewrite !Nat2Z.inj_mul, !Z2Nat.id by lia. exact Hc. }
  replace (Z.to_nat (cg_height cg * cols)) with (H * C)%nat
    by (subst H C; rewrite Z2Nat.inj_mul by lia; done).
  set (pixels := reshape (replicate (H * C) 4%nat) (cg_data cg)).
  assert (length pixels = (H * C)%nat) as Hpixels.
  { unfold pixels. by rewrite length_reshape, length_replicate. }
  set (rows := reshape (replicate H C) pixels).
  assert (Forall (fun row => length row = C) rows) as Hrows.
  { by apply reshape_rows_length. }
  set (swap := fun p : list Z => [nth 2 p 0; nth 1 p 0; nth 0 p 0; nth 3 p 0]).
  assert (Forall (fun row => length row = W)
            (map (map swap) (map (take W) rows))) as Hdata.
  { rewrite !Forall_fmap. eapply Forall_impl; [exact Hrows|].
    intros row Hrow. simpl in *. rewrite length_map, length_take. subst W C. lia. }
  rewrite concat_mjoin. split.
  - rewrite length_join, (sum_list_fmap_same W) by done.
    rewrite !length_map. unfold rows. rewrite length_reshape, length_replicate.
    subst H W. nia.
  - intros r c Hr Hcw.
    assert (r < H)%nat by (subst H; lia). assert (c < W)%nat by (subst W; lia).
    assert (W <= C)%nat by (subst W C; lia).
    apply (join_lookup_Some_same_length' W); [done..|].
    exists (map swap (take W (take C (drop (r * C) pixels)))). split.
    + change (map (map swap) (map (take W) rows))
        with ((map swap ∘ take W) <$> rows) at 1 || idtac.
      rewrite !list_lookup_fmap. unfold rows.
      rewrite reshape_lookup by (done || lia). done.
    + rewrite list_lookup_fmap, lookup_take_lt by done.
      rewrite lookup_take_lt by lia. rewrite lookup_drop.
      unfold pixels. rewrite reshape_lookup by (lia || nia). simpl.
      unfold swap. rewrite !nth_take_drop by lia.
      set (k := (r * C + c)%nat).
      replace (k + (k + (k + (k + 0))))%nat with (k * 4)%nat by lia.
      by rewrite Nat.add_0_r.
Qed.

Lemma cg_image_to_pil_pixels_witness :
  exists frame,
    cg_image_to_pil frame_2x1 empty_world = (Ok frame, empty_world) ∧
    mode frame = Mode_RGBA ∧
    size frame = (cg_width frame_2x1, cg_height frame_2x1) ∧
    length (data frame) = Z.to_nat (cg_width frame_2x1 * cg_height frame_2x1) ∧
    forall r c : nat,
      Z.of_nat r < cg_height frame_2x1 -> Z.of_nat c < cg_width frame_2x1 ->
      let off := (4 * (r * Z.to_nat (cg_bytes_per_row frame_2x1 `div` 4) + c))%nat in
      data frame !! (r * Z.to_nat (cg_width frame_2x1) + c)%nat
      = Some [nth (off + 2) (cg_data frame_2x1) 0; nth (off + 1) (cg_data frame_2x1) 0;
              nth off (cg_data frame_2x1) 0; nth (off + 3) (cg_data frame_2x1) 0].
Proof.
  apply (cg_image_to_pil_pixels frame_2x1 empty_world).
  - reflexivity.
  - simpl. lia.
  - simpl. change (12 `div` 4) with 3. lia.
Defined.

(** ** navigator.py: the key codes *)

(** Two different members of [KeyCode] have different virtual key codes:
    no member of the enumeration is an alias of another one. *)
Theorem key_value_injective k1 k2 : k1 <> k2 -> key_value k1 <> key_value k2.
Proof.
  intros Hne Heq. apply Hne. clear Hne.
  destruct k1, k2; simpl in Heq; first [reflexivity | discriminate Heq].
Qed.

Lemma key_value_injective_witness : key_value RIGHT_ARROW <> key_value LEFT_ARROW.
Proof. apply (key_value_injective RIGHT_ARROW LEFT_ARROW). discriminate. Defined.

(** ** The [compile] command: every sort option *)

(** Whatever the sort option, the files handed to the converter are the
    files of the listing, each one as often as it is listed: sorting
    neither drops nor duplicates a file. *)
Theorem sort_files_permutation `{Platform} sort (image_files : list Path) :
  (sort_files sort image_files).1 ≡ₚ image_files ∧
  length (sort_files sort image_files).1 = length image_files ∧
  forall p, p ∈ (sort_files sort image_files).1 <-> p ∈ image_files.
Proof.
  pose proof (sort_files_perm sort image_files) as Hperm.
  split; [exact Hperm|]. split; [by rewrite Hperm|].
  intros p. by rewrite Hperm.
Qed.

Section sort_by_time.
Context {A : Type} (key : A -> Z).

Lemma insort_sorted_le x (l : list A) :
  StronglySorted (key_le key) l -> StronglySorted (key_le key) (insort key Z.ltb x l).
Proof.
  induction 1 as [|y l Hl IH Hy]; simpl.
  - repeat constructor.
  - destruct (key x <? key y) eqn:Hlt.
    + apply Z.ltb_lt in Hlt. constructor; [by constructor|].
      constructor; [unfold key_le; lia|].
      eapply Forall_impl; [exact Hy|]. unfold key_le. intros; lia.
    + apply Z.ltb_ge in Hlt. constructor; [exact IH|].
      rewrite insort_perm_any. constructor; [exact Hlt|exact Hy].
Qed.

Lemma stable_sort_from_sorted_le (l : list A) : forall sorted,
  StronglySorted (key_le key) sorted ->
  StronglySorted (key_le key) (fold_left (fun sorted x => insort key Z.ltb x sorted) l sorted).
Proof.
  induction l as [|x l IH]; intros sorted Hs; simpl; [done|].
  by apply IH, insort_sorted_le.
Qed.

(** Inserting behind the elements that are not greater keeps the files
    of every key in the order they had. *)
Lemma insort_filter k x (l : list A) :
  StronglySorted (key_le key) l ->
  filter (fun a => key a = k) (insort key Z.ltb x l)
  = filter (fun a => key a = k) l ++ filter (fun a => key a = k) [x].
Proof.
  induction 1 as [|y l Hl IH Hy]; simpl; [done|].
  destruct (key x <? key y) eqn:Hlt.
  - apply Z.ltb_lt in Hlt. rewrite !filter_cons, filter_nil.
    destruct (decide (key x = k)) as [Hk|Hk]; [|by rewrite app_nil_r].
    rewrite decide_False by lia.
    assert (filter (fun a => key a = k) l = []) as ->; [|done].
    clear IH Hl. induction Hy as [|z l Hz _ IHl]; [done|].
    rewrite filter_cons, decide_False by (unfold key_le in Hz; lia).
    exact IHl.
  - rewrite !(filter_cons _ y), IH.
    destruct (decide (key y = k)); done.
Qed.

Lemma stable_sort_from_filter k (l : list A) : forall sorted,
  StronglySorted (key_le key) sorted ->
  filter (fun a => key a = k) (fold_left (fun sorted x => insort key Z.ltb x sorted) l sorted)
  = filter (fun a => key a = k) sorted ++ filter (fun a => key a = k) l.
Proof.
  induction l as [|x l IH]; intros sorted Hs; simpl.
  - by rewrite filter_nil, app_nil_r.
  - rewrite IH by (by apply insort_sorted_le).
    rewrite insort_filter by done.
    rewrite <- app_assoc. f_equal.
    rewrite !filter_cons, filter_nil. by destruct (decide (key x = k)).
Qed.

Lemma stable_sort_filter k (l : list A) :
  filter (fun a => key a = k) (stable_sort key Z.ltb l) = filter (fun a => key a = k) l.
Proof. apply (stable_sort_from_filter k l []). constructor. Qed.

Lemma rev_is_reverse (l : list A) : rev l = reverse l.
Proof. apply rev_alt. Qed.
End sort_by_time.

(** [--sort time] hands the files over oldest first and [--sort
    time-desc] newest first: the modification times never decrease,
    respectively never increase, along the list. *)
Theorem sort_files_by_time_ordered `{Platform} (image_files : list Path) :
  Sorted (fun a b => getmtime a <= getmtime b) (sort_files "time" image_files).1 ∧
  Sorted (fun a b => getmtime b <= getmtime a) (sort_files "time-desc" image_files).1.
Proof.
  unfold sort_files. simpl. unfold list_sort. split.
  - apply StronglySorted_Sorted.
    apply (stable_sort_from_sorted_le getmtime image_files []). constructor.
  - rewrite rev_is_reverse.
    apply (Sorted_reverse (fun a b => getmtime a <= getmtime b)).
    apply StronglySorted_Sorted.
    apply (stable_sort_from_sorted_le getmtime (rev image_files) []). constructor.
Qed.

(** Both time orders are stable: files with the same modification time
    keep the order of the listing, with [--sort time] and with [--sort
    time-desc] alike.  (So the two orders are reverses of each other only
    when no two files share a modification time.) *)
Theorem sort_files_by_time_stable `{Platform} (image_files : list Path) (t : Z) :
  filter (fun f => getmtime f = t) (sort_files "time" image_files).1
    = filter (fun f => getmtime f = t) image_files ∧
  filter (fun f => getmtime f = t) (sort_files "time-desc" image_files).1
    = filter (fun f => getmtime f = t) image_files.
Proof.
  unfold sort_files. simpl. unfold list_sort. split.
  - apply stable_sort_filter.
  - rewrite !rev_is_reverse, filter_reverse, stable_sort_filter, filter_reverse.
    apply reverse_involutive.
Qed.

(** ** The [compile] command: the document *)

(** The converter fails when one of the names holds no image. *)
Lemma img2pdf_convert_fail `{Platform} (names : list string) w :
  Exists (fun name => ¬ holds_image (fs w) name) names ->
  exists e, img2pdf_convert names w = (Raise e, w).
Proof.
  induction names as [|name names IH]; intros Hex; [by inversion Hex|].
  simpl. unfold bind at 1.
  destruct (fs w !! name) as [[im| |]|] eqn:Hname; try by eexists.
  destruct (img2pdf_accepts im); [|by eexists].
  apply Exists_cons in Hex as [Hbad|Hex].
  - destruct Hbad. by exists im.
  - destruct (IH Hex) as [e He]. exists e. unfold bind. by rewrite He.
Qed.

Example cli_compile_dangling_link_keeps_output :
  cli_compile (H := granting_platform) [["p1.png"]; ["link.png"]]%string
              "." "p2.png" "*.png" "time" two_images
  = (Raise (Exit 1),
     {| fs := fs two_images; open_fps := ∅;
        calls := [Echo Stderr ("Traceback (most recent call last): "
                               +:+ "No such file or directory")] |}).
Proof. vm_compute. reflexivity. Qed.

(** When the output path can be written and every listed path resolves
    (which matters for the sorts by time only: they ask for the
    modification time of every file first), but a listed file holds no
    image (or is the output path itself), the command fails with exit
    status 1 after it has opened the output for writing: the output path
    is left holding an empty file, whatever it held before. *)
Theorem cli_compile_failure_truncates_output `{Platform} (image_files : list Path)
    input output pattern sort w :
  writable output = true ->
  (sort = "time" ∨ sort = "time-desc" ->
   Forall (fun p => is_Some (fs w !! Path_str p)) image_files) ->
  Exists (fun p => Path_str p = output ∨ ¬ holds_image (fs w) (Path_str p)) image_files ->
  exists w',
    cli_compile image_files input output pattern sort w = (Raise (Exit 1), w') ∧
    fs w' = <[output := OtherFile]> (fs w).
Proof.
  intros Hw Hresolve Hbad.
  pose proof (sort_files_perm sort image_files) as Hperm.
  pose proof (sort_block_ok sort image_files w Hresolve) as Hkeys.
  unfold cli_compile.
  destruct image_files as [|p0 files]; [by inversion Hbad|].
  unfold bind at 1. unfold uncaught at 1, try_except at 1. rewrite Hkeys.
  destruct (sort_files sort (p0 :: files)) as [sorted msg] eqn:Hsort. simpl in Hperm.
  set (w1 := {| fs := <[output := OtherFile]> (fs w); open_fps := open_fps w;
                calls := calls w ++ [Echo Stdout msg;
                  Echo Stdout ("Found " +:+ pretty (length sorted) +:+ " images");
                  Echo Stdout "Converting with original quality (lossless)..."] |}).
  assert (exists e, img2pdf_convert (map Path_str sorted) w1 = (Raise e, w1))
    as [e Hconv].
  { apply img2pdf_convert_fail. apply Exists_fmap.
    rewrite Hperm. eapply Exists_impl; [exact Hbad|].
    intros p [Heq|Hno] [im Him]; simpl in Him.
    - rewrite Heq, lookup_insert_eq in Him. discriminate.
    - destruct (decide (output = Path_str p)) as [->|Hne].
      + rewrite lookup_insert_eq in Him. discriminate.
      + rewrite lookup_insert_ne in Him by done. apply Hno. by exists im. }
  eexists. split.
  - unfold bind, echo, log, uncaught, try_except, open_wb. simpl.
    rewrite Hw. simpl.
    rewrite <- !app_assoc. simpl. fold w1. rewrite Hconv. reflexivity.
  - reflexivity.
Qed.

Lemma cli_compile_failure_truncates_output_witness :
  exists w',
    cli_compile (H := granting_platform) [["p1.png"]; ["p2.png"]]%string
                "." "p1.png" "*.png" "time" two_images = (Raise (Exit 1), w') ∧
    fs w' = <["p1.png"%string := OtherFile]> (fs two_images).
Proof.
  apply (cli_compile_failure_truncates_output (H := granting_platform)
           [["p1.png"]; ["p2.png"]]%string "." "p1.png" "*.png" "time" two_images).
  - reflexivity.
  - intros _. repeat constructor; vm_compute; by eexists.
  - left. left. reflexivity.
Defined.

(** ** pdf_compiler.py: a missing file, and the pixels of a page *)

Lemma open_all_missing (good : list string) (bad : string) (rest : list string) :
  forall w,
    Forall (holds_image (fs w)) good ->
    ¬ holds_image (fs w) bad ->
    exists images msg w',
      open_all (good ++ bad :: rest) w = (Raise (OSError msg), w') ∧
      fs w' = fs w ∧
      calls w' = calls w ++ map Open good ++ [Open bad] ∧
      Forall2 (decoded_from (fs w)) good images ∧
      open_fps w' = open_fps w ∪ handles images ∧
      handles images ## open_fps w.
Proof.
  induction good as [|path good IH]; intros w Hgood Hbad.
  - exists []. simpl. unfold bind at 1. unfold Image_open, bind at 1, log. simpl.
    destruct (fs w !! bad) as [[im| |]|] eqn:Hlook.
    + destruct Hbad. by exists im.
    + eexists _, _. repeat split; [constructor|unfold handles; simpl; set_solver..].
    + eexists _, _. repeat split; [constructor|unfold handles; simpl; set_solver..].
    + eexists _, _. repeat split; [constructor|unfold handles; simpl; set_solver..].
  - apply Forall_cons in Hgood as [[im Him] Hgood].
    set (h := fresh (open_fps w)).
    set (w0 := {| fs := fs w; open_fps := {[h]} ∪ open_fps w;
                  calls := calls w ++ [Open path] |}).
    destruct (IH w0 Hgood Hbad)
      as (images & msg & w' & Hopen & Hfs & Hcalls & Hdec & Hfps & Hdisj).
    eexists (_ :: images), msg, w'.
    split.
    { simpl. unfold bind at 1. unfold Image_open, bind at 1, log. simpl.
      rewrite Him. fold h. fold w0. unfold bind. rewrite Hopen. reflexivity. }
    split; [exact Hfs|].
    split; [rewrite Hcalls; simpl; by rewrite <- app_assoc|].
    split; [constructor; [by exists im, h|exact Hdec]|].
    assert (h ∉ open_fps w) as Hfresh by apply is_fresh.
    unfold handles in *. simpl in *.
    split; [rewrite Hfps; set_solver|set_solver].
Qed.

(** [compile_from_files] with a path that holds no image, after paths
    that do: it fails with the [OSError] of [Image.open] before anything
    is compiled; no file is written, the paths after the missing one are
    not opened, and the images opened before it are not closed: their
    handles stay open. *)
Theorem compile_from_files_missing_file `{Platform} (good : list string) (bad : string)
    (rest : list string) output_path dpi w :
  Forall (holds_image (fs w)) good ->
  ¬ holds_image (fs w) bad ->
  exists images msg w',
    compile_from_files (good ++ bad :: rest) output_path dpi w
      = (Raise (OSError msg), w') ∧
    fs w' = fs w ∧
    calls w' = calls w ++ map Open good ++ [Open bad] ∧
    Forall2 (decoded_from (fs w)) good images ∧
    open_fps w' = open_fps w ∪ handles images ∧
    handles images ## open_fps w.
Proof.
  intros Hgood Hbad.
  destruct (open_all_missing good bad rest w Hgood Hbad)
    as (images & msg & w' & Hopen & Hrest).
  exists images, msg, w'. split; [|exact Hrest].
  unfold compile_from_files. by rewrite (bind_raise _ _ _ _ _ Hopen).
Qed.

Lemma compile_from_files_missing_file_witness :
  exists images msg w',
    compile_from_files (H := granting_platform)
                       (["p1.png"%string] ++ "gone.png"%string :: ["p2.png"%string])
                       "book.pdf" 150 two_images
      = (Raise (OSError msg), w') ∧
    fs w' = fs two_images ∧
    calls w' = calls two_images ++ map Open ["p1.png"%string] ++ [Open "gone.png"] ∧
    Forall2 (decoded_from (fs two_images)) ["p1.png"%string] images ∧
    open_fps w' = open_fps two_images ∪ handles images ∧
    handles images ## open_fps two_images.
Proof.
  apply (compile_from_files_missing_file (H := granting_platform)
           ["p1.png"%string] "gone.png" ["p2.png"%string] "book.pdf" 150 two_images).
  - repeat constructor. exists rgba_1x1. reflexivity.
  - intros [im Him]. vm_compute in Him. discriminate Him.
Defined.




(** ** The command [screenshot], end to end *)





